(** * strongSwan [stream_t]: a byte stream over a connected descriptor

    Shallow embedding of [src/libstrongswan/networking/streams/stream.c].

    The object is a C struct reached through [this]; every method is
    modelled as a function taking the struct by value and returning the
    struct as the method leaves it, what the method returns, and the list of
    calls it made to its collaborators (kernel, C library, watcher,
    registered callbacks), oldest call first. *)

From Stdlib Require Import String ZArith List Bool Lia.
Import ListNotations.
Local Open Scope Z_scope.

(** ** Data model *)

(** Pointers (to [FILE], to callback code, to callback data) are addresses;
    the null pointer is address zero, and a pointer used as a C condition is
    true when it is not null. *)
Definition ptr := Z.
Definition NULL : ptr := 0.
Definition is_set (p : ptr) : bool := negb (p =? NULL).

(** [struct private_stream_t]; the [public] member only holds the method
    table and is left out. *)
Record private_stream_t : Type := mk_stream {
  fd : Z;             (* underlying socket *)
  file : ptr;         (* FILE* for convenience functions, or NULL *)
  read_cb : ptr;      (* callback if data is ready to read *)
  read_data : ptr;    (* data for read-ready callback *)
  write_cb : ptr;     (* callback if write is non-blocking *)
  write_data : ptr    (* data for write-ready callback *)
}.

Definition set_file (this : private_stream_t) (v : ptr) : private_stream_t :=
  mk_stream (fd this) v (read_cb this) (read_data this)
            (write_cb this) (write_data this).

Definition set_read_cb (this : private_stream_t) (v : ptr) : private_stream_t :=
  mk_stream (fd this) (file this) v (read_data this)
            (write_cb this) (write_data this).

Definition set_read_data (this : private_stream_t) (v : ptr) : private_stream_t :=
  mk_stream (fd this) (file this) (read_cb this) v
            (write_cb this) (write_data this).

Definition set_write_cb (this : private_stream_t) (v : ptr) : private_stream_t :=
  mk_stream (fd this) (file this) (read_cb this) (read_data this)
            v (write_data this).

Definition set_write_data (this : private_stream_t) (v : ptr) : private_stream_t :=
  mk_stream (fd this) (file this) (read_cb this) (read_data this)
            (write_cb this) v.

(** The constants of <errno.h> and <sys/socket.h> the file uses.  Their
    values belong to the platform; on some platforms [EAGAIN] and
    [EWOULDBLOCK] are one number, on others two. *)
Class platform : Type := {
  EAGAIN : Z;
  EWOULDBLOCK : Z;
  EINTR : Z;
  MSG_DONTWAIT : Z
}.

(** Modelled from the spec: watcher.h is not part of the sources at hand.
    [watcher_event_t] has the three event kinds readable, writable and
    exceptional, which are combined into an event mask with bitwise or; they
    are distinct single bits. *)
Definition WATCHER_READ : Z := 1.
Definition WATCHER_WRITE : Z := 2.
Definition WATCHER_EXCEPT : Z := 4.

(** Calls a method makes to its collaborators, and the one way control goes
    back to a collaborator ([watch_return]). *)
Inductive call : Type :=
| sys_read (d buf len : Z)                 (* read(fd, buf, len) *)
| sys_recv (d buf len flags : Z)           (* recv(fd, buf, len, flags) *)
| sys_write (d buf len : Z)                (* write(fd, buf, len) *)
| sys_send (d buf len flags : Z)           (* send(fd, buf, len, flags) *)
| watcher_remove_call (d : Z)              (* lib->watcher->remove(lib->watcher, fd) *)
| watcher_add_call (d events : Z)          (* lib->watcher->add(lib->watcher, fd, events, watch, this) *)
| stream_cb_call (cb data : ptr)           (* cb(data, &this->public) *)
| watch_return (d event : Z) (keep : bool) (* watch() hands [keep] back to the watcher *)
| libc_fdopen (d : Z) (mode : string) (ret : ptr)
| libc_vfprintf (f : ptr) (format : ptr) (ap : list Z) (ret : Z)
| libc_fclose (f : ptr)
| sys_close (d : Z)
| libc_free.

(** ** Transfer facet *)

(** One answer of the kernel to a transfer system call: the value the call
    returns and the value [errno] holds once it has returned. *)
Record attempt : Type := mk_attempt { a_ret : Z; a_errno : Z }.

(** What a transfer method hands back: returned byte count or -1, [errno]
    as the method leaves it, the struct, and the system calls issued. *)
Record transfer : Type := mk_transfer {
  t_ret : Z;
  t_errno : Z;
  t_this : private_stream_t;
  t_calls : list call
}.

Definition after_call (c : call) (t : transfer) : transfer :=
  mk_transfer (t_ret t) (t_errno t) (t_this t) (c :: t_calls t).

(** [read_]: the [while (TRUE)] loop consumes one kernel answer per turn.
    [None] means that every answer supplied was consumed by a retry, so the
    loop is still running. *)
Fixpoint read_ {P : platform} (this : private_stream_t) (buf len : Z)
    (block : bool) (kernel : list attempt) : option transfer :=
  match kernel with
  | [] => None
  | a :: kernel' =>
      let issued :=
        if block then sys_read (fd this) buf len
        else sys_recv (fd this) buf len MSG_DONTWAIT in
      let ret := a_ret a in
      let errno := a_errno a in
      let errno :=
        if block then errno
        else if (ret =? -1) && (errno =? EAGAIN)
             then EWOULDBLOCK (* unify EGAIN and EWOULDBLOCK *)
             else errno in
      if (ret =? -1) && (errno =? EINTR)
      then (* interrupted, try again *)
        option_map (after_call issued) (read_ this buf len block kernel')
      else Some (mk_transfer ret errno this [issued])
  end.

(** [write_]: the same loop over [write]/[send]. *)
Fixpoint write_ {P : platform} (this : private_stream_t) (buf len : Z)
    (block : bool) (kernel : list attempt) : option transfer :=
  match kernel with
  | [] => None
  | a :: kernel' =>
      let issued :=
        if block then sys_write (fd this) buf len
        else sys_send (fd this) buf len MSG_DONTWAIT in
      let ret := a_ret a in
      let errno := a_errno a in
      let errno :=
        if block then errno
        else if (ret =? -1) && (errno =? EAGAIN)
             then EWOULDBLOCK (* unify EGAIN and EWOULDBLOCK *)
             else errno in
      if (ret =? -1) && (errno =? EINTR)
      then (* interrupted, try again *)
        option_map (after_call issued) (write_ this buf len block kernel')
      else Some (mk_transfer ret errno this [issued])
  end.

(** The kernel reports a signal interruption: the call failed and [errno]
    is [EINTR]. *)
Definition interrupted {P : platform} (a : attempt) : Prop :=
  a_ret a = -1 /\ a_errno a = EINTR.

(** The kernel reports the would-block condition, under either name. *)
Definition would_block {P : platform} (a : attempt) : Prop :=
  a_ret a = -1 /\ (a_errno a = EAGAIN \/ a_errno a = EWOULDBLOCK).

(** ** Readiness facet *)

(** Remove a registered watcher. *)
Definition remove_watcher (this : private_stream_t) : list call :=
  if is_set (read_cb this) || is_set (write_cb this)
  then [watcher_remove_call (fd this)]
  else [].

(** The code behind the callback pointers: what the function at address
    [cb] returns when called with [data] and the stream.  Callbacks are
    taken not to call back into [on_read]/[on_write] of the stream they are
    dispatched for (the spec leaves that case open). *)
Definition callbacks : Type := ptr -> ptr -> private_stream_t -> bool.

(** Watcher callback.  Calling through a null function pointer has no
    defined behaviour: [None]. *)
Definition watch (code : callbacks) (this : private_stream_t) (d : Z)
    (event : Z) : option (bool * private_stream_t * list call) :=
  let keep := false in
  if event =? WATCHER_READ then
    if is_set (read_cb this) then
      let keep := code (read_cb this) (read_data this) this in
      let invoked := stream_cb_call (read_cb this) (read_data this) in
      if negb keep
      then Some (keep, set_read_cb this NULL, [invoked])
      else Some (keep, this, [invoked])
    else None
  else if event =? WATCHER_WRITE then
    if is_set (write_cb this) then
      let keep := code (write_cb this) (write_data this) this in
      let invoked := stream_cb_call (write_cb this) (write_data this) in
      if negb keep
      then Some (keep, set_write_cb this NULL, [invoked])
      else Some (keep, this, [invoked])
    else None
  else Some (keep, this, []).

(** Register watcher for stream callbacks. *)
Definition add_watcher (this : private_stream_t) : list call :=
  let events := 0 in
  let events :=
    if is_set (read_cb this) then Z.lor events WATCHER_READ else events in
  let events :=
    if is_set (write_cb this) then Z.lor events WATCHER_WRITE else events in
  if negb (events =? 0)
  then [watcher_add_call (fd this) events]
  else [].

Definition on_read (this : private_stream_t) (cb data : ptr)
    : private_stream_t * list call :=
  let removed := remove_watcher this in
  let this := set_read_cb this cb in
  let this := set_read_data this data in
  (this, removed ++ add_watcher this).

Definition on_write (this : private_stream_t) (cb data : ptr)
    : private_stream_t * list call :=
  let removed := remove_watcher this in
  let this := set_write_cb this cb in
  let this := set_write_data this data in
  (this, removed ++ add_watcher this).

(** ** Formatted-output facet *)

(** What the C library answers during one [vprint]: the handle [fdopen]
    returns if it is called (null on failure) and the count [vfprintf]
    returns if it is called. *)
Record stdio : Type := mk_stdio { fdopen_ret : ptr; vfprintf_ret : Z }.

Definition vprint (this : private_stream_t) (format : ptr) (ap : list Z)
    (libc : stdio) : Z * private_stream_t * list call :=
  if negb (is_set (file this)) then
    let opened := libc_fdopen (fd this) "w+" (fdopen_ret libc) in
    let this := set_file this (fdopen_ret libc) in
    if negb (is_set (file this)) then (-1, this, [opened])
    else
      (vfprintf_ret libc, this,
       [opened; libc_vfprintf (file this) format ap (vfprintf_ret libc)])
  else
    (vfprintf_ret libc, this,
     [libc_vfprintf (file this) format ap (vfprintf_ret libc)]).

(** [print] collects its variable arguments and forwards them. *)
Definition print (this : private_stream_t) (format : ptr) (args : list Z)
    (libc : stdio) : Z * private_stream_t * list call :=
  let ap := args in
  let ret := vprint this format ap libc in
  ret.

(** ** Lifecycle facet *)

(** [destroy] frees the object, so only the calls remain. *)
Definition destroy (this : private_stream_t) : list call :=
  remove_watcher this
  ++ (if is_set (file this)
      then [libc_fclose (file this)]
      else [sys_close (fd this)])
  ++ [libc_free].

(** [INIT] allocates the object zeroed and sets the members listed. *)
Definition stream_create_from_fd (d : Z) : private_stream_t :=
  mk_stream d NULL NULL NULL NULL NULL.

(** ** The notification service *)

(** Modelled from the spec: the watcher (lib->watcher) is not part of the
    sources at hand.  It holds registrations, each a descriptor with an
    event mask.  [register] replaces any existing registration for that
    descriptor; [deregister] removes any registration for that descriptor
    and is idempotent. *)
Definition watcher : Type := list (Z * Z).

(** Modelled from the spec: [deregister(descriptor)] of the watcher
    removes any registration for that descriptor; idempotent. *)
Definition watcher_remove (w : watcher) (d : Z) : watcher :=
  filter (fun e => negb (fst e =? d)) w.

(** Modelled from the spec: [register(descriptor, event_mask, ...)] of the
    watcher replaces any existing registration for that descriptor. *)
Definition watcher_add (w : watcher) (d events : Z) : watcher :=
  (d, events) :: watcher_remove w d.

(** Modelled from the spec: the watcher's reaction to the dispatch entry
    point returning "drop it".  Read and write readiness are two independent
    registrations of the descriptor, so the registration dropped is the one
    of the event kind that was dispatched; a descriptor left without any
    event kind is no longer registered. *)
Definition watcher_drop (w : watcher) (d event : Z) : watcher :=
  flat_map
    (fun e =>
       if fst e =? d then
         let events := Z.ldiff (snd e) event in
         if events =? 0 then [] else [(fst e, events)]
       else [e])
    w.

(** Modelled from the spec: the effect of one call on the watcher; a
    [true] answer of the dispatch entry point keeps the registration. *)
Definition watcher_step (w : watcher) (c : call) : watcher :=
  match c with
  | watcher_remove_call d => watcher_remove w d
  | watcher_add_call d events => watcher_add w d events
  | watch_return d event keep => if keep then w else watcher_drop w d event
  | _ => w
  end.

Definition watcher_after (w : watcher) (calls : list call) : watcher :=
  fold_left watcher_step calls w.

(** The registrations the watcher holds for a descriptor. *)
Definition registrations (w : watcher) (d : Z) : watcher :=
  filter (fun e => fst e =? d) w.

(** Modelled from the spec: the event kinds the watcher signals, one per
    dispatch: readable, writable, exceptional. *)
Inductive event_kind : Type := Readable | Writable | Exceptional.

(** The [watcher_event_t] value of an event kind. *)
Definition event_bit (k : event_kind) : Z :=
  match k with
  | Readable => WATCHER_READ
  | Writable => WATCHER_WRITE
  | Exceptional => WATCHER_EXCEPT
  end.

(** Modelled from the spec: a dispatch by the watcher, which invokes the
    entry point registered for the descriptor ([watch], bound to the
    stream) with the descriptor and the event kind, and receives its
    answer. *)
Definition dispatch (code : callbacks) (this : private_stream_t)
    (k : event_kind) : option (bool * private_stream_t * list call) :=
  match watch code this (fd this) (event_bit k) with
  | None => None
  | Some (keep, this', calls) =>
      Some (keep, this',
            calls ++ [watch_return (fd this) (event_bit k) keep])
  end.

(** The spec's [interest_mask(slots) -> event_set]: read interest if a read
    callback is set, write interest if a write callback is set. *)
Definition interest_mask (this : private_stream_t) : Z :=
  Z.lor (if is_set (read_cb this) then WATCHER_READ else 0)
        (if is_set (write_cb this) then WATCHER_WRITE else 0).

(** The registration a descriptor has for an event mask: none for the
    empty mask, else the one entry. *)
Definition entry_for (d events : Z) : watcher :=
  if events =? 0 then [] else [(d, events)].

(** The watcher holds, for the stream's descriptor, exactly the
    registration its callback slots call for. *)
Definition consistent (w : watcher) (this : private_stream_t) : Prop :=
  registrations w (fd this) = entry_for (fd this) (interest_mask this).

(** ** Sequences of calls *)

Inductive registration : Type :=
| OnRead (cb data : ptr)
| OnWrite (cb data : ptr).

Definition register (this : private_stream_t) (r : registration)
    : private_stream_t * list call :=
  match r with
  | OnRead cb data => on_read this cb data
  | OnWrite cb data => on_write this cb data
  end.

Fixpoint run_registrations (this : private_stream_t) (rs : list registration)
    : private_stream_t * list call :=
  match rs with
  | [] => (this, [])
  | r :: rs' =>
      let '(this1, calls1) := register this r in
      let '(this2, calls2) := run_registrations this1 rs' in
      (this2, calls1 ++ calls2)
  end.

(** One request to the formatted-output facet, with the C library's
    answers during it. *)
Record print_request : Type := mk_print_request {
  p_format : ptr;
  p_args : list Z;
  p_libc : stdio
}.

Fixpoint run_prints (this : private_stream_t) (ps : list print_request)
    : list Z * private_stream_t * list call :=
  match ps with
  | [] => ([], this, [])
  | p :: ps' =>
      let '(ret, this1, calls1) :=
        print this (p_format p) (p_args p) (p_libc p) in
      let '(rets, this2, calls2) := run_prints this1 ps' in
      (ret :: rets, this2, calls1 ++ calls2)
  end.

(** The life of a stream created over descriptor [d]: the struct it has
    become and every call made so far, after any number of method calls and
    dispatches that have returned.  What a callback answers is taken anew at
    every dispatch ([code] is the behaviour of the callbacks at that
    dispatch), so a callback may keep at one dispatch and decline at a
    later one. *)
Inductive lifetime {P : platform} (d : Z)
    : private_stream_t -> list call -> Prop :=
| life_create :
    lifetime d (stream_create_from_fd d) []
| life_read this calls buf len block kernel t :
    lifetime d this calls ->
    read_ this buf len block kernel = Some t ->
    lifetime d (t_this t) (calls ++ t_calls t)
| life_write this calls buf len block kernel t :
    lifetime d this calls ->
    write_ this buf len block kernel = Some t ->
    lifetime d (t_this t) (calls ++ t_calls t)
| life_on_read this calls cb data :
    lifetime d this calls ->
    lifetime d (fst (on_read this cb data))
             (calls ++ snd (on_read this cb data))
| life_on_write this calls cb data :
    lifetime d this calls ->
    lifetime d (fst (on_write this cb data))
             (calls ++ snd (on_write this cb data))
| life_vprint this calls format ap libc :
    lifetime d this calls ->
    lifetime d (snd (fst (vprint this format ap libc)))
             (calls ++ snd (vprint this format ap libc))
| life_print this calls format args libc :
    lifetime d this calls ->
    lifetime d (snd (fst (print this format args libc)))
             (calls ++ snd (print this format args libc))
| life_dispatch this calls (code : callbacks) k keep this' calls' :
    lifetime d this calls ->
    dispatch code this k = Some (keep, this', calls') ->
    lifetime d this' (calls ++ calls').

(** Calls that release the descriptor: closing it, or closing a buffered
    handle opened over it (which closes the descriptor underneath). *)
Definition releases_descriptor (c : call) : bool :=
  match c with
  | sys_close _ | libc_fclose _ => true
  | _ => false
  end.

Definition releases (calls : list call) : nat :=
  length (filter releases_descriptor calls).

(** A successful [fdopen] over descriptor [d] is among the calls. *)
Definition opened_handle (d : Z) (calls : list call) : Prop :=
  exists h, h <> NULL /\ In (libc_fdopen d "w+" h) calls.

(** ** Vocabulary of the transfer statements *)

(** The system call a transfer method issues, by direction and mode. *)
Definition read_call {P : platform} (this : private_stream_t) (buf len : Z)
    (block : bool) : call :=
  if block then sys_read (fd this) buf len
  else sys_recv (fd this) buf len MSG_DONTWAIT.

Definition write_call {P : platform} (this : private_stream_t) (buf len : Z)
    (block : bool) : call :=
  if block then sys_write (fd this) buf len
  else sys_send (fd this) buf len MSG_DONTWAIT.

(** [errno] as one turn of the loop leaves it before the retry test. *)
Definition turn_errno {P : platform} (block : bool) (a : attempt) : Z :=
  if block then a_errno a
  else if (a_ret a =? -1) && (a_errno a =? EAGAIN)
       then EWOULDBLOCK else a_errno a.

(** The loop's retry test, as both methods compute it. *)
Definition retry_test {P : platform} (block : bool) (a : attempt) : bool :=
  (a_ret a =? -1) && (turn_errno block a =? EINTR).

(** The method handed back what attempt [a] reported, after issuing the
    call [issued] [n] times: the returned value is the attempt's; [errno]
    is the attempt's too, except that a non-blocking call reports the
    would-block condition as [EWOULDBLOCK]; the struct is untouched. *)
Definition hands_back {P : platform} (block : bool) (a : attempt)
    (issued : call) (n : nat) (this : private_stream_t) (t : transfer)
    : Prop :=
  t_ret t = a_ret a
  /\ (block = true -> t_errno t = a_errno a)
  /\ (block = false -> would_block a -> t_errno t = EWOULDBLOCK)
  /\ (block = false -> ~ would_block a -> t_errno t = a_errno a)
  /\ t_this t = this
  /\ t_calls t = repeat issued n.

(** ** Concrete platforms and streams, for running the model *)

(** A platform where would-block has one number (Linux). *)
Definition one_name : platform :=
  {| EAGAIN := 11; EWOULDBLOCK := 11; EINTR := 4; MSG_DONTWAIT := 64 |}.

(** A platform where [EAGAIN] and [EWOULDBLOCK] are two numbers. *)
Definition two_names : platform :=
  {| EAGAIN := 11; EWOULDBLOCK := 246; EINTR := 4; MSG_DONTWAIT := 64 |}.

(** A stream over descriptor 3 with nothing registered. *)
Definition fresh3 : private_stream_t := stream_create_from_fd 3.

(** ** Vocabulary of the readiness statements *)

(** At every moment while [calls] are made, starting from watcher [w],
    descriptor [d] has at most one registration, and whenever a registration
    is added for it the watcher holds none for it. *)
Definition never_overlapping (w : watcher) (d : Z) (calls : list call)
    : Prop :=
  (forall before after,
      calls = before ++ after ->
      (length (registrations (watcher_after w before) d) <= 1)%nat)
  /\ (forall before events after,
        calls = before ++ watcher_add_call d events :: after ->
        registrations (watcher_after w before) d = []).

(** Whether some callback is set, as [remove_watcher] tests it. *)
Definition any_cb (this : private_stream_t) : bool :=
  is_set (read_cb this) || is_set (write_cb this).

(** Callback code that always asks to be kept, and code that never does. *)
Definition always_keep : callbacks := fun _ _ _ => true.
Definition never_keep : callbacks := fun _ _ _ => false.

(** A stream over descriptor 3 with a read callback, and one with both
    callbacks, each with the watcher that holds its registration. *)
Definition reader3 : private_stream_t := mk_stream 3 NULL 100 7 NULL NULL.
Definition reader3_watcher : watcher := [(3, WATCHER_READ)].
Definition duplex3 : private_stream_t := mk_stream 3 NULL 100 7 200 8.
Definition duplex3_watcher : watcher :=
  [(3, Z.lor WATCHER_READ WATCHER_WRITE)].

(** The reading of an exception event under which the watcher, handed
    "don't keep", ends up with no registration for the descriptor while the
    stream is left as it was. *)
Definition except_drops_registration (code : callbacks) (w : watcher)
    (this : private_stream_t) : Prop :=
  exists calls,
    dispatch code this Exceptional = Some (false, this, calls)
    /\ registrations (watcher_after w calls) (fd this) = [].

(** ** Vocabulary of the lifecycle statements *)

(** What holds of a stream over descriptor [d] throughout its life, [w0]
    being the watcher when the stream was created: the descriptor member
    never changes; the watcher holds the registration the callback slots
    call for; nothing has released the descriptor; every [fdopen] was made
    over [d] in mode "w+" and either failed or returned the handle now in
    [file]; and a handle in [file] came from such a call. *)
Definition alive (w0 : watcher) (d : Z) (this : private_stream_t)
    (calls : list call) : Prop :=
  fd this = d
  /\ consistent (watcher_after w0 calls) this
  /\ (forall c, In c calls -> releases_descriptor c = false)
  /\ (forall d' mode h,
        In (libc_fdopen d' mode h) calls ->
        d' = d /\ mode = "w+"%string /\ (h = NULL \/ h = file this))
  /\ (file this <> NULL -> In (libc_fdopen d "w+" (file this)) calls).

(** Calls that open, or close, a handle on a descriptor. *)
Definition touches_handle (c : call) : bool :=
  match c with
  | libc_fdopen _ _ _ | libc_fclose _ | sys_close _ => true
  | _ => false
  end.

(** Calls the watcher takes part in. *)
Definition touches_watcher (c : call) : bool :=
  match c with
  | watcher_remove_call _ | watcher_add_call _ _ | watch_return _ _ _ => true
  | _ => false
  end.

(** ** Vocabulary of the statements on whole runs *)

(** An [fdopen] that returned a handle. *)
Definition successful_open (c : call) : bool :=
  match c with
  | libc_fdopen _ _ h => is_set h
  | _ => false
  end.

Definition successful_opens (calls : list call) : nat :=
  length (filter successful_open calls).

(** A call a stream over descriptor [d] may be seen to make: system calls
    and watcher calls name [d]; non-blocking transfers carry
    [MSG_DONTWAIT]; [fdopen] is in mode "w+"; a registration is for read
    readiness, write readiness or both. *)
Definition own_call {P : platform} (d : Z) (c : call) : Prop :=
  match c with
  | sys_read d' _ _ | sys_write d' _ _ => d' = d
  | sys_recv d' _ _ flags | sys_send d' _ _ flags =>
      d' = d /\ flags = MSG_DONTWAIT
  | watcher_remove_call d' => d' = d
  | watcher_add_call d' events =>
      d' = d
      /\ (events = WATCHER_READ \/ events = WATCHER_WRITE
          \/ events = Z.lor WATCHER_READ WATCHER_WRITE)
  | watch_return d' _ _ => d' = d
  | libc_fdopen d' mode _ => d' = d /\ mode = "w+"%string
  | sys_close d' => d' = d
  | stream_cb_call _ _ | libc_vfprintf _ _ _ _ | libc_fclose _ | libc_free =>
      True
  end.

(** * Proofs *)

(** ** Transfer facet *)

Section Transfer.
Context {P : platform}.

Lemma retry_test_interrupted block a :
  EINTR <> EAGAIN -> interrupted a -> retry_test block a = true.
Proof.
  intros Hne [Hret Herr]. unfold retry_test, turn_errno.
  rewrite Hret, Herr. simpl.
  destruct block.
  - apply Z.eqb_refl.
  - destruct (Z.eqb_spec EINTR EAGAIN) as [E|_]; [contradiction|].
    apply Z.eqb_refl.
Qed.

Lemma retry_test_settled block a :
  EINTR <> EWOULDBLOCK -> ~ interrupted a -> retry_test block a = false.
Proof.
  intros Hne Hnot. unfold retry_test, turn_errno, interrupted in *.
  destruct (Z.eqb_spec (a_ret a) (-1)) as [Hret|Hret]; [|reflexivity].
  simpl. destruct block.
  - apply Z.eqb_neq. intros E. apply Hnot. split; assumption.
  - destruct (Z.eqb_spec (a_errno a) EAGAIN) as [_|_].
    + apply Z.eqb_neq. intros E. apply Hne. symmetry. exact E.
    + apply Z.eqb_neq. intros E. apply Hnot. split; assumption.
Qed.

Lemma read__turn this buf len block a kernel :
  read_ this buf len block (a :: kernel) =
  if retry_test block a
  then option_map (after_call (read_call this buf len block))
                  (read_ this buf len block kernel)
  else Some (mk_transfer (a_ret a) (turn_errno block a) this
                         [read_call this buf len block]).
Proof. reflexivity. Qed.

Lemma write__turn this buf len block a kernel :
  write_ this buf len block (a :: kernel) =
  if retry_test block a
  then option_map (after_call (write_call this buf len block))
                  (write_ this buf len block kernel)
  else Some (mk_transfer (a_ret a) (turn_errno block a) this
                         [write_call this buf len block]).
Proof. reflexivity. Qed.

(** What a turn that returns hands back. *)
Lemma settled_hands_back block a issued this :
  hands_back block a issued 1 this
    (mk_transfer (a_ret a) (turn_errno block a) this [issued]).
Proof.
  unfold hands_back, would_block, turn_errno; simpl.
  split; [reflexivity|].
  split; [intros ->; reflexivity|].
  split.
  - intros -> [Hret [Herr|Herr]].
    + rewrite Hret, Herr, !Z.eqb_refl. reflexivity.
    + rewrite Herr. destruct (_ && _); reflexivity.
  - split; [|split; reflexivity].
    intros -> Hnot.
    destruct (Z.eqb_spec (a_ret a) (-1)) as [Hret|_]; [|reflexivity].
    destruct (Z.eqb_spec (a_errno a) EAGAIN) as [Herr|_]; [|reflexivity].
    exfalso. apply Hnot. split; [assumption|left; assumption].
Qed.

Lemma hands_back_after block a issued n this t :
  hands_back block a issued n this t ->
  hands_back block a issued (S n) this (after_call issued t).
Proof.
  unfold hands_back. intros (H1 & H2 & H3 & H4 & H5 & H6). simpl.
  repeat split; try assumption. rewrite H6. reflexivity.
Qed.

(** The loop retries through any run of interrupted attempts and hands
    back the first attempt that was not interrupted. *)
Lemma read__retries this buf len block pre a rest :
  EINTR <> EAGAIN -> EINTR <> EWOULDBLOCK ->
  Forall interrupted pre -> ~ interrupted a ->
  exists t,
    read_ this buf len block (pre ++ a :: rest) = Some t
    /\ hands_back block a (read_call this buf len block)
                  (S (length pre)) this t.
Proof.
  intros Hne1 Hne2 Hpre Ha.
  induction Hpre as [|p pre Hp _ IH]; simpl app; rewrite read__turn.
  - rewrite (retry_test_settled _ _ Hne2 Ha).
    eexists; split; [reflexivity|]. apply settled_hands_back.
  - rewrite (retry_test_interrupted _ _ Hne1 Hp).
    destruct IH as (t & -> & Ht).
    eexists; split; [reflexivity|]. apply hands_back_after, Ht.
Qed.

Lemma write__retries this buf len block pre a rest :
  EINTR <> EAGAIN -> EINTR <> EWOULDBLOCK ->
  Forall interrupted pre -> ~ interrupted a ->
  exists t,
    write_ this buf len block (pre ++ a :: rest) = Some t
    /\ hands_back block a (write_call this buf len block)
                  (S (length pre)) this t.
Proof.
  intros Hne1 Hne2 Hpre Ha.
  induction Hpre as [|p pre Hp _ IH]; simpl app; rewrite write__turn.
  - rewrite (retry_test_settled _ _ Hne2 Ha).
    eexists; split; [reflexivity|]. apply settled_hands_back.
  - rewrite (retry_test_interrupted _ _ Hne1 Hp).
    destruct IH as (t & -> & Ht).
    eexists; split; [reflexivity|]. apply hands_back_after, Ht.
Qed.

(** Whatever the kernel answers, a call that returns does not report an
    interruption, has not touched the struct, and has issued nothing but
    its own system call. *)
Lemma read__returned this buf len block kernel t :
  read_ this buf len block kernel = Some t ->
  ~ (t_ret t = -1 /\ t_errno t = EINTR)
  /\ t_this t = this
  /\ Forall (eq (read_call this buf len block)) (t_calls t).
Proof.
  revert t. induction kernel as [|a kernel IH]; intros t; [discriminate|].
  rewrite read__turn. destruct (retry_test block a) eqn:Htest.
  - destruct (read_ this buf len block kernel) as [t'|]; [|discriminate].
    simpl. intros [= <-]. destruct (IH t' eq_refl) as (H1 & H2 & H3).
    simpl. repeat split; try assumption. constructor; [reflexivity|assumption].
  - intros [= <-]. simpl. split; [|split; [reflexivity|]].
    + intros [Hret Herr]. unfold retry_test in Htest.
      rewrite Herr, Hret, !Z.eqb_refl in Htest.
      simpl in Htest. discriminate.
    + constructor; [reflexivity|constructor].
Qed.

Lemma write__returned this buf len block kernel t :
  write_ this buf len block kernel = Some t ->
  ~ (t_ret t = -1 /\ t_errno t = EINTR)
  /\ t_this t = this
  /\ Forall (eq (write_call this buf len block)) (t_calls t).
Proof.
  revert t. induction kernel as [|a kernel IH]; intros t; [discriminate|].
  rewrite write__turn. destruct (retry_test block a) eqn:Htest.
  - destruct (write_ this buf len block kernel) as [t'|]; [|discriminate].
    simpl. intros [= <-]. destruct (IH t' eq_refl) as (H1 & H2 & H3).
    simpl. repeat split; try assumption. constructor; [reflexivity|assumption].
  - intros [= <-]. simpl. split; [|split; [reflexivity|]].
    + intros [Hret Herr]. unfold retry_test in Htest.
      rewrite Herr, Hret, !Z.eqb_refl in Htest.
      simpl in Htest. discriminate.
    + constructor; [reflexivity|constructor].
Qed.

End Transfer.

(** ** Claims on the transfer facet *)

(** C3. A non-blocking [read_] or [write_] that meets the would-block
    condition returns -1 with [errno] set to the one code [EWOULDBLOCK],
    whether the kernel reported [EAGAIN] or [EWOULDBLOCK]; a blocking call
    does no such rewriting and leaves [errno] as the kernel set it. *)
Theorem would_block_is_unified {P : platform} this buf len pre a rest :
  EINTR <> EAGAIN -> EINTR <> EWOULDBLOCK ->
  Forall interrupted pre ->
  (would_block a ->
   (exists t, read_ this buf len false (pre ++ a :: rest) = Some t
              /\ t_ret t = -1 /\ t_errno t = EWOULDBLOCK)
   /\ (exists t, write_ this buf len false (pre ++ a :: rest) = Some t
                 /\ t_ret t = -1 /\ t_errno t = EWOULDBLOCK))
  /\ (~ interrupted a ->
      (exists t, read_ this buf len true (pre ++ a :: rest) = Some t
                 /\ t_ret t = a_ret a /\ t_errno t = a_errno a)
      /\ (exists t, write_ this buf len true (pre ++ a :: rest) = Some t
                    /\ t_ret t = a_ret a /\ t_errno t = a_errno a)).
Proof.
  intros Hne1 Hne2 Hpre. split.
  - intros Hwb.
    assert (Hnot : ~ interrupted a).
    { destruct Hwb as [_ [E|E]]; intros [_ E']; rewrite E' in E;
        [apply Hne1|apply Hne2]; exact E. }
    split.
    + destruct (read__retries this buf len false pre a rest Hne1 Hne2 Hpre Hnot)
        as (t & Ht & Hret & _ & Hwould & _).
      exists t. split; [exact Ht|]. split.
      * rewrite Hret. apply Hwb.
      * apply Hwould; [reflexivity|exact Hwb].
    + destruct (write__retries this buf len false pre a rest Hne1 Hne2 Hpre Hnot)
        as (t & Ht & Hret & _ & Hwould & _).
      exists t. split; [exact Ht|]. split.
      * rewrite Hret. apply Hwb.
      * apply Hwould; [reflexivity|exact Hwb].
  - intros Hnot. split.
    + destruct (read__retries this buf len true pre a rest Hne1 Hne2 Hpre Hnot)
        as (t & Ht & Hret & Hblock & _).
      exists t. auto.
    + destruct (write__retries this buf len true pre a rest Hne1 Hne2 Hpre Hnot)
        as (t & Ht & Hret & Hblock & _).
      exists t. auto.
Qed.

(** On a platform with two numbers, after one interruption, the kernel
    answers [EAGAIN]. *)
Lemma would_block_is_unified_witness :
  (exists t, read_ (P := two_names) fresh3 0 16 false
                   ([mk_attempt (-1) 4] ++ mk_attempt (-1) 11 :: []) = Some t
             /\ t_ret t = -1 /\ t_errno t = 246)
  /\ (exists t, write_ (P := two_names) fresh3 0 16 false
                       ([mk_attempt (-1) 4] ++ mk_attempt (-1) 11 :: []) = Some t
                /\ t_ret t = -1 /\ t_errno t = 246).
Proof.
  apply (would_block_is_unified (P := two_names) fresh3 0 16
           [mk_attempt (-1) 4] (mk_attempt (-1) 11) []).
  - simpl. lia.
  - simpl. lia.
  - repeat constructor.
  - split; [reflexivity|left; reflexivity].
Defined.

(** C4. In both modes, [read_] and [write_] reissue the same system call
    for as long as the kernel reports an interruption, and hand back the
    first attempt that was not interrupted: its return value as it is
    (a byte count, zero included, or -1), with [errno] as that attempt left
    it (up to the would-block unification of a non-blocking call).  No call
    ever returns -1 with [errno] at [EINTR]. *)
Theorem interruption_is_retried {P : platform} this buf len block pre a rest :
  EINTR <> EAGAIN -> EINTR <> EWOULDBLOCK ->
  Forall interrupted pre -> ~ interrupted a ->
  (exists t, read_ this buf len block (pre ++ a :: rest) = Some t
             /\ hands_back block a (read_call this buf len block)
                           (S (length pre)) this t)
  /\ (exists t, write_ this buf len block (pre ++ a :: rest) = Some t
                /\ hands_back block a (write_call this buf len block)
                              (S (length pre)) this t)
  /\ (forall kernel t,
        read_ this buf len block kernel = Some t
        \/ write_ this buf len block kernel = Some t ->
        ~ (t_ret t = -1 /\ t_errno t = EINTR)).
Proof.
  intros Hne1 Hne2 Hpre Hnot. split; [|split].
  - apply read__retries; assumption.
  - apply write__retries; assumption.
  - intros kernel t [H|H].
    + apply (read__returned _ _ _ _ _ _ H).
    + apply (write__returned _ _ _ _ _ _ H).
Qed.

(** Two interruptions, then an orderly close (zero bytes). *)
Lemma interruption_is_retried_witness :
  exists t,
    read_ (P := one_name) fresh3 0 16 true
          ([mk_attempt (-1) 4; mk_attempt (-1) 4] ++ mk_attempt 0 4 :: [])
    = Some t
    /\ t_ret t = 0
    /\ t_calls t = [sys_read 3 0 16; sys_read 3 0 16; sys_read 3 0 16].
Proof.
  destruct (interruption_is_retried (P := one_name) fresh3 0 16 true
              [mk_attempt (-1) 4; mk_attempt (-1) 4] (mk_attempt 0 4) [])
    as [[t [Ht Hback]] _].
  - simpl. lia.
  - simpl. lia.
  - repeat constructor.
  - intros [Hret _]. simpl in Hret. lia.
  - exists t. split; [exact Ht|].
    destruct Hback as (Hret & _ & _ & _ & _ & Hcalls).
    split; [exact Hret|exact Hcalls].
Defined.

(** ** The watcher model *)

Lemma registrations_remove_same w d :
  registrations (watcher_remove w d) d = [].
Proof.
  unfold registrations, watcher_remove.
  induction w as [|e w IH]; simpl; [reflexivity|].
  destruct (fst e =? d) eqn:E; simpl; [exact IH|].
  rewrite E. exact IH.
Qed.

Lemma registrations_remove_other w d d' :
  d' <> d -> registrations (watcher_remove w d) d' = registrations w d'.
Proof.
  intros Hne. unfold registrations, watcher_remove.
  induction w as [|e w IH]; simpl; [reflexivity|].
  destruct (Z.eqb_spec (fst e) d) as [E|E]; simpl.
  - destruct (Z.eqb_spec (fst e) d') as [E'|_]; [congruence|exact IH].
  - rewrite IH. reflexivity.
Qed.

Lemma registrations_add_same w d events :
  registrations (watcher_add w d events) d = [(d, events)].
Proof.
  unfold watcher_add, registrations at 1. simpl. rewrite Z.eqb_refl.
  f_equal. apply registrations_remove_same.
Qed.

Lemma registrations_drop_same w d event :
  registrations (watcher_drop w d event) d =
  flat_map (fun e => entry_for (fst e) (Z.ldiff (snd e) event))
           (registrations w d).
Proof.
  unfold registrations, watcher_drop, entry_for.
  induction w as [|e w IH]; simpl; [reflexivity|].
  rewrite filter_app, IH.
  destruct (fst e =? d) eqn:E; simpl.
  - destruct (Z.ldiff (snd e) event =? 0); simpl; [reflexivity|].
    rewrite E. reflexivity.
  - rewrite E. reflexivity.
Qed.

Lemma watcher_after_app w calls1 calls2 :
  watcher_after w (calls1 ++ calls2) =
  watcher_after (watcher_after w calls1) calls2.
Proof. apply fold_left_app. Qed.

Lemma length_entry_for d events :
  (length (entry_for d events) <= 1)%nat.
Proof. unfold entry_for. destruct (events =? 0); simpl; lia. Qed.

(** ** Moments of a call list *)

Lemma never_overlapping_nil w d :
  (length (registrations w d) <= 1)%nat -> never_overlapping w d [].
Proof.
  intros Hlen. split.
  - intros before after E. symmetry in E.
    apply app_eq_nil in E. destruct E as [-> _]. exact Hlen.
  - intros before events after E. symmetry in E.
    apply app_eq_nil in E. destruct E as [_ E]. discriminate.
Qed.

Lemma never_overlapping_single w d c :
  (length (registrations w d) <= 1)%nat ->
  (length (registrations (watcher_step w c) d) <= 1)%nat ->
  (forall events, c = watcher_add_call d events -> registrations w d = []) ->
  never_overlapping w d [c].
Proof.
  intros Hlen Hlen' Hadd. split.
  - intros [|b [|b' before]] after E; simpl in E.
    + exact Hlen.
    + injection E as <- _. exact Hlen'.
    + injection E as _ E. discriminate.
  - intros [|b before] events after E; simpl in E.
    + injection E as -> _. apply (Hadd events). reflexivity.
    + injection E as _ E. symmetry in E.
      apply app_eq_nil in E. destruct E as [_ E]. discriminate.
Qed.

Lemma never_overlapping_app w d calls1 calls2 :
  never_overlapping w d calls1 ->
  never_overlapping (watcher_after w calls1) d calls2 ->
  never_overlapping w d (calls1 ++ calls2).
Proof.
  intros [H1 A1] [H2 A2]. split.
  - intros before after E.
    apply app_eq_app in E. destruct E as [l [[E1 E2]|[E1 E2]]].
    + apply (H1 before l). exact E1.
    + rewrite E1, watcher_after_app. apply (H2 l after). exact E2.
  - intros before events after E.
    apply app_eq_app in E. destruct E as [l [[E1 E2]|[E1 E2]]].
    + destruct l as [|c l]; simpl in E2.
      * rewrite app_nil_r in E1. rewrite <- E1.
        apply (A2 [] events after). symmetry. exact E2.
      * injection E2 as <- E2. apply (A1 before events l). exact E1.
    + rewrite E1, watcher_after_app. apply (A2 l events after). exact E2.
Qed.

(** ** Readiness facet *)

Lemma interest_mask_cases this :
  interest_mask this =
  match is_set (read_cb this), is_set (write_cb this) with
  | false, false => 0
  | true, false => WATCHER_READ
  | false, true => WATCHER_WRITE
  | true, true => Z.lor WATCHER_READ WATCHER_WRITE
  end.
Proof.
  unfold interest_mask.
  destruct (is_set (read_cb this)), (is_set (write_cb this)); reflexivity.
Qed.

(** Read interest iff a read callback is set, write interest iff a write
    callback is set, and no other interest. *)
Lemma interest_mask_bits this n :
  Z.testbit (interest_mask this) n =
  ((n =? 0) && is_set (read_cb this)) || ((n =? 1) && is_set (write_cb this)).
Proof.
  rewrite interest_mask_cases.
  destruct (is_set (read_cb this)), (is_set (write_cb this));
    destruct n as [|[p|p|]|p]; reflexivity.
Qed.

Lemma interest_mask_none this :
  any_cb this = false -> interest_mask this = 0.
Proof.
  unfold any_cb. rewrite interest_mask_cases.
  destruct (is_set (read_cb this)), (is_set (write_cb this));
    simpl; intros H; (discriminate || reflexivity).
Qed.

Lemma interest_mask_some this :
  any_cb this = true -> (interest_mask this =? 0) = false.
Proof.
  unfold any_cb. rewrite interest_mask_cases.
  destruct (is_set (read_cb this)), (is_set (write_cb this));
    simpl; intros H; (discriminate || reflexivity).
Qed.

Lemma remove_watcher_any this :
  remove_watcher this =
  if any_cb this then [watcher_remove_call (fd this)] else [].
Proof. reflexivity. Qed.

(** [add_watcher] registers the descriptor for the interest mask, unless
    the mask is empty. *)
Lemma add_watcher_interest this :
  add_watcher this =
  if interest_mask this =? 0 then []
  else [watcher_add_call (fd this) (interest_mask this)].
Proof.
  unfold add_watcher. rewrite interest_mask_cases.
  destruct (is_set (read_cb this)), (is_set (write_cb this)); reflexivity.
Qed.

Lemma consistent_length w this :
  consistent w this -> (length (registrations w (fd this)) <= 1)%nat.
Proof. intros H. rewrite H. apply length_entry_for. Qed.

(** The remove-then-register sequence shared by [on_read] and [on_write]:
    [this] is the struct before the slot is written, [this'] after. *)
Lemma reregister_never_overlapping w this this' :
  consistent w this -> fd this' = fd this ->
  never_overlapping w (fd this) (remove_watcher this ++ add_watcher this')
  /\ consistent (watcher_after w (remove_watcher this ++ add_watcher this'))
                this'.
Proof.
  intros Hcons Hfd.
  pose proof (consistent_length _ _ Hcons) as Hlen.
  assert (Hremoved :
            never_overlapping w (fd this) (remove_watcher this)
            /\ registrations (watcher_after w (remove_watcher this))
                             (fd this) = []).
  { rewrite remove_watcher_any. destruct (any_cb this) eqn:Hany.
    - split; [|apply registrations_remove_same].
      apply never_overlapping_single; simpl.
      + exact Hlen.
      + rewrite registrations_remove_same. simpl. lia.
      + intros events E. discriminate.
    - split; [apply never_overlapping_nil; exact Hlen|].
      simpl. rewrite Hcons, (interest_mask_none _ Hany). reflexivity. }
  destruct Hremoved as [Hnever Hnone].
  rewrite watcher_after_app. split.
  - apply never_overlapping_app; [exact Hnever|].
    rewrite add_watcher_interest, Hfd.
    destruct (interest_mask this' =? 0).
    + apply never_overlapping_nil. rewrite Hnone. simpl. lia.
    + apply never_overlapping_single; cbn [watcher_step].
      * rewrite Hnone. simpl. lia.
      * rewrite registrations_add_same. simpl. lia.
      * intros events _. exact Hnone.
  - unfold consistent. rewrite add_watcher_interest, Hfd. unfold entry_for.
    destruct (interest_mask this' =? 0);
      cbn [watcher_after fold_left watcher_step].
    + exact Hnone.
    + apply registrations_add_same.
Qed.

Lemma register_calls this r :
  snd (register this r) =
  remove_watcher this ++ add_watcher (fst (register this r)).
Proof. destruct r; reflexivity. Qed.

Lemma register_fd this r : fd (fst (register this r)) = fd this.
Proof. destruct r; reflexivity. Qed.

Lemma run_registrations_cons this r rs :
  run_registrations this (r :: rs) =
  (fst (run_registrations (fst (register this r)) rs),
   snd (register this r) ++ snd (run_registrations (fst (register this r)) rs)).
Proof.
  simpl. destruct (register this r) as [this1 calls1]. simpl.
  destruct (run_registrations this1 rs) as [this2 calls2]. reflexivity.
Qed.

Lemma run_registrations_never_overlapping rs : forall w this,
  consistent w this ->
  never_overlapping w (fd this) (snd (run_registrations this rs))
  /\ consistent (watcher_after w (snd (run_registrations this rs)))
                (fst (run_registrations this rs))
  /\ fd (fst (run_registrations this rs)) = fd this.
Proof.
  induction rs as [|r rs IH]; intros w this Hcons.
  - simpl. split; [|split; [exact Hcons|reflexivity]].
    apply never_overlapping_nil, consistent_length, Hcons.
  - rewrite run_registrations_cons. cbn [fst snd].
    destruct (reregister_never_overlapping w this (fst (register this r))
                Hcons (register_fd this r)) as [Hnever Hcons'].
    rewrite <- register_calls in Hnever, Hcons'.
    destruct (IH _ _ Hcons') as (Hnever' & Hcons'' & Hfd).
    rewrite register_fd in Hnever', Hfd.
    rewrite watcher_after_app.
    split; [|split; assumption].
    apply never_overlapping_app; assumption.
Qed.

Lemma is_set_null p : p = NULL -> is_set p = false.
Proof. intros ->. reflexivity. Qed.

Lemma is_set_nonnull p : p <> NULL -> is_set p = true.
Proof.
  intros H. unfold is_set. apply negb_true_iff, Z.eqb_neq. exact H.
Qed.

Lemma on_read_consistent w this cb data :
  consistent w this ->
  registrations (watcher_after w (snd (on_read this cb data))) (fd this) =
  entry_for (fd this) (interest_mask (fst (on_read this cb data))).
Proof.
  intros Hcons.
  apply (reregister_never_overlapping w this (fst (on_read this cb data))
           Hcons eq_refl).
Qed.

Lemma on_write_consistent w this cb data :
  consistent w this ->
  registrations (watcher_after w (snd (on_write this cb data))) (fd this) =
  entry_for (fd this) (interest_mask (fst (on_write this cb data))).
Proof.
  intros Hcons.
  apply (reregister_never_overlapping w this (fst (on_write this cb data))
           Hcons eq_refl).
Qed.

(** ** Claims on registration *)

(** C1. Over any sequence of [on_read]/[on_write] calls, the watcher never
    holds more than one registration for the stream's descriptor, and a
    registration is only ever added while none is held.  Each call first
    removes the registration (only when a callback was set), then stores
    the new callback and data in its own slots, then registers for exactly
    the interest mask of the slots (read interest iff a read callback is
    set, write interest iff a write callback is set), or makes no
    registration when neither is set, leaving the descriptor
    unregistered. *)
Theorem one_registration_at_any_time w this rs :
  consistent w this ->
  never_overlapping w (fd this) (snd (run_registrations this rs))
  /\ consistent (watcher_after w (snd (run_registrations this rs)))
                (fst (run_registrations this rs))
  /\ (forall rs1 r rs2,
        rs = rs1 ++ r :: rs2 ->
        let this1 := fst (run_registrations this rs1) in
        let w1 := watcher_after w (snd (run_registrations this rs1)) in
        let this2 := fst (register this1 r) in
        snd (register this1 r) =
          (if any_cb this1 then [watcher_remove_call (fd this)] else [])
          ++ (if interest_mask this2 =? 0 then []
              else [watcher_add_call (fd this) (interest_mask this2)])
        /\ match r with
           | OnRead cb data =>
               read_cb this2 = cb /\ read_data this2 = data
               /\ write_cb this2 = write_cb this1
               /\ write_data this2 = write_data this1
           | OnWrite cb data =>
               write_cb this2 = cb /\ write_data this2 = data
               /\ read_cb this2 = read_cb this1
               /\ read_data this2 = read_data this1
           end
        /\ fd this2 = fd this1 /\ file this2 = file this1
        /\ registrations (watcher_after w1 (snd (register this1 r))) (fd this)
           = entry_for (fd this) (interest_mask this2))
  /\ (forall s n,
        Z.testbit (interest_mask s) n =
        ((n =? 0) && is_set (read_cb s)) || ((n =? 1) && is_set (write_cb s))).
Proof.
  intros Hcons.
  destruct (run_registrations_never_overlapping rs w this Hcons)
    as (Hnever & Hcons' & _).
  split; [exact Hnever|]. split; [exact Hcons'|].
  split; [|exact interest_mask_bits].
  intros rs1 r rs2 _. cbv zeta.
  destruct (run_registrations_never_overlapping rs1 w this Hcons)
    as (_ & Hcons1 & Hfd1).
  split; [|split; [|split; [|split]]].
  - rewrite register_calls, remove_watcher_any, add_watcher_interest.
    rewrite register_fd, Hfd1. reflexivity.
  - destruct r; repeat split.
  - apply register_fd.
  - destruct r; reflexivity.
  - destruct (reregister_never_overlapping _ _ _ Hcons1
                (register_fd (fst (run_registrations this rs1)) r))
      as [_ H].
    unfold consistent in H.
    rewrite <- register_calls, register_fd, Hfd1 in H. exact H.
Qed.

(** A stream registers a read callback, then a write callback, then
    withdraws the read callback: the descriptor ends up registered for
    write readiness alone, and the second call has stored its pair in the
    write slots and left the read slots alone. *)
Lemma one_registration_at_any_time_witness :
  consistent [] fresh3
  /\ never_overlapping [] 3
       (snd (run_registrations fresh3 [OnRead 100 7; OnWrite 200 8; OnRead 0 0]))
  /\ registrations
       (watcher_after []
          (snd (run_registrations fresh3
                  [OnRead 100 7; OnWrite 200 8; OnRead 0 0]))) 3
     = [(3, WATCHER_WRITE)]
  /\ (write_cb (fst (register (mk_stream 3 NULL 100 7 NULL NULL)
                              (OnWrite 200 8))) = 200
      /\ write_data (fst (register (mk_stream 3 NULL 100 7 NULL NULL)
                                   (OnWrite 200 8))) = 8
      /\ read_cb (fst (register (mk_stream 3 NULL 100 7 NULL NULL)
                                (OnWrite 200 8))) = 100
      /\ read_data (fst (register (mk_stream 3 NULL 100 7 NULL NULL)
                                  (OnWrite 200 8))) = 7).
Proof.
  assert (H0 : consistent [] fresh3) by reflexivity.
  split; [exact H0|].
  destruct (one_registration_at_any_time [] fresh3
              [OnRead 100 7; OnWrite 200 8; OnRead 0 0] H0)
    as (Hnever & Hcons & Hcall & _).
  split; [exact Hnever|]. split; [exact Hcons|].
  destruct (Hcall [OnRead 100 7] (OnWrite 200 8) [OnRead 0 0] eq_refl)
    as (_ & Hstored & _).
  exact Hstored.
Defined.

(** C5. [on_read] with a null callback: when no write callback is set the
    descriptor ends up not registered at all, and nothing is registered
    anew; when a write callback is set the descriptor ends up registered
    for the write event alone.  [on_write] with a null callback does the
    same with respect to the read callback. *)
Theorem null_callback_deregisters w this data :
  consistent w this ->
  (write_cb this = NULL ->
   snd (on_read this NULL data) =
     (if is_set (read_cb this) then [watcher_remove_call (fd this)] else [])
   /\ registrations (watcher_after w (snd (on_read this NULL data)))
                    (fd this) = [])
  /\ (write_cb this <> NULL ->
      snd (on_read this NULL data) =
        [watcher_remove_call (fd this);
         watcher_add_call (fd this) WATCHER_WRITE]
      /\ registrations (watcher_after w (snd (on_read this NULL data)))
                       (fd this) = [(fd this, WATCHER_WRITE)])
  /\ (read_cb this = NULL ->
      snd (on_write this NULL data) =
        (if is_set (write_cb this) then [watcher_remove_call (fd this)] else [])
      /\ registrations (watcher_after w (snd (on_write this NULL data)))
                       (fd this) = [])
  /\ (read_cb this <> NULL ->
      snd (on_write this NULL data) =
        [watcher_remove_call (fd this);
         watcher_add_call (fd this) WATCHER_READ]
      /\ registrations (watcher_after w (snd (on_write this NULL data)))
                       (fd this) = [(fd this, WATCHER_READ)]).
Proof.
  intros Hcons.
  pose proof (on_read_consistent w this NULL data Hcons) as Hr.
  pose proof (on_write_consistent w this NULL data Hcons) as Hw.
  rewrite interest_mask_cases in Hr, Hw.
  destruct this as [d f rc rd wc wd].
  unfold on_read, on_write, remove_watcher, add_watcher in *.
  cbn [fst snd read_cb write_cb fd set_read_cb set_read_data
       set_write_cb set_write_data] in *.
  change (is_set NULL) with false in *.
  split; [|split; [|split]]; intros E.
  - apply is_set_null in E. rewrite E in *.
    rewrite orb_false_r in *. cbn in *. rewrite app_nil_r in *.
    split; [reflexivity|exact Hr].
  - apply is_set_nonnull in E. rewrite E in *.
    rewrite orb_true_r in *. cbn in *.
    split; [reflexivity|exact Hr].
  - apply is_set_null in E. rewrite E in *.
    cbn in *. rewrite app_nil_r in *.
    split; [reflexivity|exact Hw].
  - apply is_set_nonnull in E. rewrite E in *.
    cbn in *.
    split; [reflexivity|exact Hw].
Qed.

(** A stream with both callbacks set, registered for both events,
    withdraws its read callback. *)
Lemma null_callback_deregisters_witness :
  registrations
    (watcher_after [(3, 3)]
       (snd (on_read (mk_stream 3 0 100 7 200 8) NULL 0))) 3
  = [(3, WATCHER_WRITE)].
Proof.
  assert (H0 : consistent [(3, 3)] (mk_stream 3 0 100 7 200 8))
    by reflexivity.
  destruct (null_callback_deregisters [(3, 3)] (mk_stream 3 0 100 7 200 8)
              0 H0) as (_ & H & _).
  apply H. simpl. discriminate.
Defined.

(** ** Dispatch *)

Lemma watch_read code this d :
  read_cb this <> NULL ->
  watch code this d WATCHER_READ =
  Some (code (read_cb this) (read_data this) this,
        (if code (read_cb this) (read_data this) this
         then this else set_read_cb this NULL),
        [stream_cb_call (read_cb this) (read_data this)]).
Proof.
  intros H. unfold watch. cbn [Z.eqb WATCHER_READ Pos.eqb].
  rewrite (is_set_nonnull _ H).
  destruct (code (read_cb this) (read_data this) this); reflexivity.
Qed.

Lemma watch_write code this d :
  write_cb this <> NULL ->
  watch code this d WATCHER_WRITE =
  Some (code (write_cb this) (write_data this) this,
        (if code (write_cb this) (write_data this) this
         then this else set_write_cb this NULL),
        [stream_cb_call (write_cb this) (write_data this)]).
Proof.
  intros H. unfold watch.
  cbn [Z.eqb WATCHER_READ WATCHER_WRITE Pos.eqb].
  rewrite (is_set_nonnull _ H).
  destruct (code (write_cb this) (write_data this) this); reflexivity.
Qed.

Lemma watch_except code this d :
  watch code this d WATCHER_EXCEPT = Some (false, this, []).
Proof. reflexivity. Qed.

(** The watcher after it is handed "don't keep" for an event. *)
Lemma registrations_drop_single w d event m :
  registrations w d = [(d, m)] ->
  registrations (watcher_drop w d event) d = entry_for d (Z.ldiff m event).
Proof.
  intros H. rewrite registrations_drop_same, H. simpl.
  apply app_nil_r.
Qed.

(** ** Claims on dispatch *)

(** C8. A read-ready event calls exactly the stored read callback with the
    stored read data and the stream; a write-ready event calls exactly the
    stored write callback with the stored write data and the stream; what
    goes back to the watcher is the callback's own answer; an exception
    event calls no callback. *)
Theorem dispatch_invokes_stored_callback (code : callbacks) this d :
  (read_cb this <> NULL ->
   let keep := code (read_cb this) (read_data this) this in
   let this' := if keep then this else set_read_cb this NULL in
   watch code this d WATCHER_READ =
     Some (keep, this', [stream_cb_call (read_cb this) (read_data this)])
   /\ dispatch code this Readable =
        Some (keep, this',
              [stream_cb_call (read_cb this) (read_data this);
               watch_return (fd this) WATCHER_READ keep]))
  /\ (write_cb this <> NULL ->
      let keep := code (write_cb this) (write_data this) this in
      let this' := if keep then this else set_write_cb this NULL in
      watch code this d WATCHER_WRITE =
        Some (keep, this', [stream_cb_call (write_cb this) (write_data this)])
      /\ dispatch code this Writable =
           Some (keep, this',
                 [stream_cb_call (write_cb this) (write_data this);
                  watch_return (fd this) WATCHER_WRITE keep]))
  /\ watch code this d WATCHER_EXCEPT = Some (false, this, [])
  /\ dispatch code this Exceptional =
       Some (false, this, [watch_return (fd this) WATCHER_EXCEPT false]).
Proof.
  split; [|split; [|split; reflexivity]].
  - intros H. cbv zeta. split; [apply watch_read, H|].
    unfold dispatch. cbn [event_bit]. rewrite (watch_read _ _ _ H).
    reflexivity.
  - intros H. cbv zeta. split; [apply watch_write, H|].
    unfold dispatch. cbn [event_bit]. rewrite (watch_write _ _ _ H).
    reflexivity.
Qed.

(** The read callback of [duplex3] is the code at 100, called with 7. *)
Lemma dispatch_invokes_stored_callback_witness :
  watch always_keep duplex3 3 WATCHER_READ =
  Some (true, duplex3, [stream_cb_call 100 7]).
Proof.
  destruct (dispatch_invokes_stored_callback always_keep duplex3 3)
    as (H & _).
  apply H. simpl. discriminate.
Defined.

(** C2. When the callback that is dispatched answers "don't keep", [watch]
    clears that direction's callback slot (and nothing else) before it
    returns, so the slot is already empty when the watcher acts on the
    answer; the watcher then holds for the descriptor exactly the
    registration the remaining callbacks call for.  In particular, if the
    read callback is dropped while a write callback is set, the descriptor
    stays registered for the write event alone, and the dropped direction's
    event is in no registration of the descriptor. *)
Theorem dropped_callback_is_cleared (code : callbacks) w this :
  consistent w this ->
  (read_cb this <> NULL ->
   code (read_cb this) (read_data this) this = false ->
   let invoked := stream_cb_call (read_cb this) (read_data this) in
   let calls := [invoked; watch_return (fd this) WATCHER_READ false] in
   watch code this (fd this) WATCHER_READ =
     Some (false, set_read_cb this NULL, [invoked])
   /\ watcher_after w [invoked] = w
   /\ dispatch code this Readable = Some (false, set_read_cb this NULL, calls)
   /\ consistent (watcher_after w calls) (set_read_cb this NULL)
   /\ (write_cb this <> NULL ->
       registrations (watcher_after w calls) (fd this)
       = [(fd this, WATCHER_WRITE)])
   /\ (forall e, In e (registrations (watcher_after w calls) (fd this)) ->
                 Z.land (snd e) WATCHER_READ = 0))
  /\ (write_cb this <> NULL ->
      code (write_cb this) (write_data this) this = false ->
      let invoked := stream_cb_call (write_cb this) (write_data this) in
      let calls := [invoked; watch_return (fd this) WATCHER_WRITE false] in
      watch code this (fd this) WATCHER_WRITE =
        Some (false, set_write_cb this NULL, [invoked])
      /\ watcher_after w [invoked] = w
      /\ dispatch code this Writable =
           Some (false, set_write_cb this NULL, calls)
      /\ consistent (watcher_after w calls) (set_write_cb this NULL)
      /\ (read_cb this <> NULL ->
          registrations (watcher_after w calls) (fd this)
          = [(fd this, WATCHER_READ)])
      /\ (forall e, In e (registrations (watcher_after w calls) (fd this)) ->
                    Z.land (snd e) WATCHER_WRITE = 0)).
Proof.
  intros Hcons. unfold consistent in Hcons.
  rewrite interest_mask_cases in Hcons.
  split; intros Hset Hdrop; cbv zeta.
  - pose proof (watch_read code this (fd this) Hset) as Hwatch.
    rewrite Hdrop in Hwatch.
    split; [exact Hwatch|]. split; [reflexivity|].
    split; [unfold dispatch; cbn [event_bit]; rewrite Hwatch; reflexivity|].
    rewrite (is_set_nonnull _ Hset) in Hcons.
    assert (Hafter :
              registrations
                (watcher_after w
                   [stream_cb_call (read_cb this) (read_data this);
                    watch_return (fd this) WATCHER_READ false]) (fd this)
              = entry_for (fd this)
                  (if is_set (write_cb this) then WATCHER_WRITE else 0)).
    { cbn [watcher_after fold_left watcher_step].
      destruct (is_set (write_cb this));
        rewrite (registrations_drop_single _ _ _ _ Hcons); reflexivity. }
    split; [|split].
    + unfold consistent. rewrite interest_mask_cases.
      cbn [fd read_cb write_cb set_read_cb].
      change (is_set NULL) with false. exact Hafter.
    + intros Hw. rewrite Hafter, (is_set_nonnull _ Hw). reflexivity.
    + intros e. rewrite Hafter.
      destruct (is_set (write_cb this)); simpl; intros H;
        (destruct H as [<-|[]] || destruct H); reflexivity.
  - pose proof (watch_write code this (fd this) Hset) as Hwatch.
    rewrite Hdrop in Hwatch.
    split; [exact Hwatch|]. split; [reflexivity|].
    split; [unfold dispatch; cbn [event_bit]; rewrite Hwatch; reflexivity|].
    rewrite (is_set_nonnull _ Hset) in Hcons.
    assert (Hafter :
              registrations
                (watcher_after w
                   [stream_cb_call (write_cb this) (write_data this);
                    watch_return (fd this) WATCHER_WRITE false]) (fd this)
              = entry_for (fd this)
                  (if is_set (read_cb this) then WATCHER_READ else 0)).
    { cbn [watcher_after fold_left watcher_step].
      destruct (is_set (read_cb this));
        rewrite (registrations_drop_single _ _ _ _ Hcons); reflexivity. }
    split; [|split].
    + unfold consistent. rewrite interest_mask_cases.
      cbn [fd read_cb write_cb set_write_cb].
      change (is_set NULL) with false.
      rewrite Hafter. destruct (is_set (read_cb this)); reflexivity.
    + intros Hr. rewrite Hafter, (is_set_nonnull _ Hr). reflexivity.
    + intros e. rewrite Hafter.
      destruct (is_set (read_cb this)); simpl; intros H;
        (destruct H as [<-|[]] || destruct H); reflexivity.
Qed.

(** The read callback of [duplex3] answers "don't keep": the descriptor
    stays registered for write readiness. *)
Lemma dropped_callback_is_cleared_witness :
  dispatch never_keep duplex3 Readable =
    Some (false, mk_stream 3 NULL NULL 7 200 8,
          [stream_cb_call 100 7; watch_return 3 WATCHER_READ false])
  /\ registrations
       (watcher_after duplex3_watcher
          [stream_cb_call 100 7; watch_return 3 WATCHER_READ false]) 3
     = [(3, WATCHER_WRITE)].
Proof.
  assert (H0 : consistent duplex3_watcher duplex3) by reflexivity.
  destruct (dropped_callback_is_cleared never_keep duplex3_watcher duplex3 H0)
    as (H & _).
  assert (Hset : read_cb duplex3 <> NULL) by (simpl; discriminate).
  destruct (H Hset eq_refl) as (_ & _ & Hdispatch & _ & Hwrite & _).
  split; [exact Hdispatch|].
  apply Hwrite. simpl. discriminate.
Defined.

(** C9, as the code and the watcher of the spec have it.  With a callback
    set and the descriptor registered accordingly, an exception event calls
    no callback, hands "don't keep" to the watcher and leaves every field of
    the stream as it was; the watcher drops the exception event kind only,
    which is in no registration, so the descriptor stays registered for the
    interest of the stored callbacks. *)
Theorem except_event_changes_nothing code w this :
  consistent w this -> any_cb this = true ->
  dispatch code this Exceptional =
    Some (false, this, [watch_return (fd this) WATCHER_EXCEPT false])
  /\ registrations
       (watcher_after w [watch_return (fd this) WATCHER_EXCEPT false])
       (fd this)
     = [(fd this, interest_mask this)]
  /\ consistent
       (watcher_after w [watch_return (fd this) WATCHER_EXCEPT false]) this.
Proof.
  intros Hcons Hany.
  assert (Hreg : registrations w (fd this) = [(fd this, interest_mask this)]).
  { rewrite Hcons. unfold entry_for.
    rewrite (interest_mask_some _ Hany). reflexivity. }
  assert (Hkept : Z.ldiff (interest_mask this) WATCHER_EXCEPT
                  = interest_mask this).
  { rewrite interest_mask_cases.
    destruct (is_set (read_cb this)), (is_set (write_cb this)); reflexivity. }
  assert (Hafter :
            registrations
              (watcher_after w [watch_return (fd this) WATCHER_EXCEPT false])
              (fd this)
            = [(fd this, interest_mask this)]).
  { cbn [watcher_after fold_left watcher_step].
    rewrite (registrations_drop_single _ _ _ _ Hreg), Hkept.
    unfold entry_for. rewrite (interest_mask_some _ Hany). reflexivity. }
  split; [reflexivity|]. split; [exact Hafter|].
  unfold consistent. rewrite Hafter. unfold entry_for.
  rewrite (interest_mask_some _ Hany). reflexivity.
Qed.

Lemma except_event_changes_nothing_witness :
  registrations
    (watcher_after reader3_watcher [watch_return 3 WATCHER_EXCEPT false]) 3
  = [(3, WATCHER_READ)].
Proof.
  assert (H0 : consistent reader3_watcher reader3) by reflexivity.
  destruct (except_event_changes_nothing always_keep reader3_watcher reader3
              H0 eq_refl) as (_ & H & _).
  exact H.
Defined.

(** C9 as stated fails: the read callback of [reader3] is set and the
    descriptor is registered for it; after an exception event the
    registration is still there. *)
Lemma except_event_keeps_registration :
  consistent reader3_watcher reader3
  /\ any_cb reader3 = true
  /\ ~ except_drops_registration always_keep reader3_watcher reader3.
Proof.
  split; [reflexivity|]. split; [reflexivity|].
  intros [calls [Hdispatch Hnone]].
  injection Hdispatch as <-.
  discriminate Hnone.
Qed.

(** ** Formatted output *)

Lemma vprint_cases this format ap libc :
  vprint this format ap libc =
  if is_set (file this) then
    (vfprintf_ret libc, this,
     [libc_vfprintf (file this) format ap (vfprintf_ret libc)])
  else if is_set (fdopen_ret libc) then
    (vfprintf_ret libc, set_file this (fdopen_ret libc),
     [libc_fdopen (fd this) "w+" (fdopen_ret libc);
      libc_vfprintf (fdopen_ret libc) format ap (vfprintf_ret libc)])
  else
    (-1, set_file this (fdopen_ret libc),
     [libc_fdopen (fd this) "w+" (fdopen_ret libc)]).
Proof.
  unfold vprint. destruct (is_set (file this)); [reflexivity|].
  cbn [negb file set_file].
  destruct (is_set (fdopen_ret libc)); reflexivity.
Qed.

Lemma is_set_false p : is_set p = false -> p = NULL.
Proof.
  unfold is_set. intros H. apply negb_false_iff, Z.eqb_eq in H. exact H.
Qed.

Lemma is_set_true p : is_set p = true -> p <> NULL.
Proof.
  unfold is_set. intros H. apply negb_true_iff, Z.eqb_neq in H. exact H.
Qed.

Lemma set_file_same this : set_file this (file this) = this.
Proof. destruct this; reflexivity. Qed.

Lemma run_prints_reuse ps : forall this,
  file this <> NULL ->
  run_prints this ps =
  (map (fun p => vfprintf_ret (p_libc p)) ps, this,
   map (fun p => libc_vfprintf (file this) (p_format p) (p_args p)
                               (vfprintf_ret (p_libc p))) ps).
Proof.
  induction ps as [|p ps IH]; intros this Hfile; [reflexivity|].
  simpl. unfold print. rewrite vprint_cases, (is_set_nonnull _ Hfile).
  rewrite (IH this Hfile). reflexivity.
Qed.

(** ** Claims on formatted output *)

(** C7. While the stream has no buffered handle, [vprint] and [print] open
    one over the descriptor in mode "w+".  If the open fails they return -1
    and leave the stream exactly as it was, handle slot empty.  If it
    succeeds the handle is stored and written through.  Once a handle is
    stored, every later call writes through that same handle without
    opening anything, and a call returns what [vfprintf] returned, the
    number of characters written. *)
Theorem print_opens_lazily this format ap libc :
  (file this = NULL -> fdopen_ret libc = NULL ->
   vprint this format ap libc =
     (-1, this, [libc_fdopen (fd this) "w+" NULL])
   /\ print this format ap libc =
        (-1, this, [libc_fdopen (fd this) "w+" NULL]))
  /\ (file this = NULL -> fdopen_ret libc <> NULL ->
      vprint this format ap libc =
        (vfprintf_ret libc, set_file this (fdopen_ret libc),
         [libc_fdopen (fd this) "w+" (fdopen_ret libc);
          libc_vfprintf (fdopen_ret libc) format ap (vfprintf_ret libc)])
      /\ print this format ap libc = vprint this format ap libc)
  /\ (file this <> NULL ->
      vprint this format ap libc =
        (vfprintf_ret libc, this,
         [libc_vfprintf (file this) format ap (vfprintf_ret libc)])
      /\ print this format ap libc = vprint this format ap libc
      /\ forall ps,
           run_prints this ps =
           (map (fun p => vfprintf_ret (p_libc p)) ps, this,
            map (fun p => libc_vfprintf (file this) (p_format p) (p_args p)
                                        (vfprintf_ret (p_libc p))) ps)).
Proof.
  split; [|split].
  - intros Hfile Hfail.
    assert (E : vprint this format ap libc =
                (-1, this, [libc_fdopen (fd this) "w+" NULL])).
    { rewrite vprint_cases, (is_set_null _ Hfile), (is_set_null _ Hfail).
      assert (Hsame : set_file this NULL = this)
        by (rewrite <- Hfile; apply set_file_same).
      rewrite Hfail, Hsame. reflexivity. }
    split; exact E.
  - intros Hfile Hopen. split; [|reflexivity].
    rewrite vprint_cases, (is_set_null _ Hfile), (is_set_nonnull _ Hopen).
    reflexivity.
  - intros Hfile. split; [|split; [reflexivity|]].
    + rewrite vprint_cases, (is_set_nonnull _ Hfile). reflexivity.
    + intros ps. apply run_prints_reuse, Hfile.
Qed.

(** The open fails on a fresh stream: -1, and the stream is as it was. *)
Lemma print_opens_lazily_witness :
  vprint fresh3 500 [1; 2] (mk_stdio NULL 12) =
  (-1, fresh3, [libc_fdopen 3 "w+" NULL]).
Proof.
  destruct (print_opens_lazily fresh3 500 [1; 2] (mk_stdio NULL 12))
    as (H & _).
  apply H; reflexivity.
Defined.

(** ** Lifecycle *)

Lemma watcher_after_untouched calls : forall w,
  (forall c, In c calls -> touches_watcher c = false) ->
  watcher_after w calls = w.
Proof.
  induction calls as [|c calls IH]; intros w H; [reflexivity|].
  cbn [watcher_after fold_left].
  assert (Hc : watcher_step w c = w).
  { specialize (H c (or_introl eq_refl)). destruct c; try reflexivity;
      discriminate H. }
  rewrite Hc. apply IH. intros c' Hin. apply H. right. exact Hin.
Qed.

Lemma consistent_same_slots w this this' :
  fd this' = fd this -> read_cb this' = read_cb this ->
  write_cb this' = write_cb this ->
  consistent w this -> consistent w this'.
Proof.
  unfold consistent, interest_mask. intros -> -> ->. trivial.
Qed.

(** A step of the stream's life that keeps [file] and opens or closes
    nothing. *)
Lemma alive_step w0 d this calls this' calls' :
  alive w0 d this calls ->
  fd this' = fd this -> file this' = file this ->
  consistent (watcher_after (watcher_after w0 calls) calls') this' ->
  (forall c, In c calls' -> touches_handle c = false) ->
  alive w0 d this' (calls ++ calls').
Proof.
  intros (Hfd & Hcons & Hrel & Hopen & Hfile) Hfd' Hfile' Hcons' Hquiet.
  unfold alive. rewrite Hfd', Hfile', watcher_after_app.
  split; [exact Hfd|]. split; [exact Hcons'|]. split; [|split].
  - intros c Hin. apply in_app_or in Hin. destruct Hin as [Hin|Hin].
    + apply Hrel, Hin.
    + specialize (Hquiet c Hin). destruct c; try reflexivity;
        discriminate Hquiet.
  - intros d' mode h Hin. apply in_app_or in Hin. destruct Hin as [Hin|Hin].
    + apply (Hopen d' mode h Hin).
    + specialize (Hquiet _ Hin). discriminate Hquiet.
  - intros Hset. apply in_or_app. left. apply Hfile, Hset.
Qed.

Lemma transfer_calls_quiet issued calls :
  touches_handle issued = false -> touches_watcher issued = false ->
  Forall (eq issued) calls ->
  (forall c, In c calls -> touches_handle c = false)
  /\ (forall c, In c calls -> touches_watcher c = false).
Proof.
  intros H1 H2 Hall. rewrite Forall_forall in Hall.
  split; intros c Hin; rewrite <- (Hall c Hin); assumption.
Qed.

Lemma reregister_calls_quiet this this' c :
  In c (remove_watcher this ++ add_watcher this') -> touches_handle c = false.
Proof.
  rewrite remove_watcher_any, add_watcher_interest.
  destruct (any_cb this), (interest_mask this' =? 0); simpl;
    intuition (subst; reflexivity).
Qed.

(** A dispatch that returns keeps the watcher and the stream in agreement
    and touches neither [fd] nor [file]. *)
Lemma dispatch_preserves (code : callbacks) w this k keep this' calls' :
  consistent w this ->
  dispatch code this k = Some (keep, this', calls') ->
  consistent (watcher_after w calls') this'
  /\ fd this' = fd this /\ file this' = file this
  /\ (forall c, In c calls' -> touches_handle c = false).
Proof.
  intros Hcons. unfold consistent in Hcons.
  rewrite interest_mask_cases in Hcons.
  unfold dispatch, consistent. destruct k; cbn [event_bit].
  - destruct (is_set (read_cb this)) eqn:Hset.
    + rewrite (watch_read code this (fd this) (is_set_true _ Hset)).
      destruct (code (read_cb this) (read_data this) this);
        intros [= <- <- <-]; rewrite interest_mask_cases;
        cbn [fd file read_cb write_cb set_read_cb app
             watcher_after fold_left watcher_step];
        (split; [|split; [reflexivity|split; [reflexivity|]]]).
      * rewrite Hset. exact Hcons.
      * simpl. intuition (subst; reflexivity).
      * change (is_set NULL) with false.
        destruct (is_set (write_cb this));
          rewrite (registrations_drop_single _ _ _ _ Hcons); reflexivity.
      * simpl. intuition (subst; reflexivity).
    + unfold watch. cbn [Z.eqb WATCHER_READ Pos.eqb]. rewrite Hset.
      discriminate.
  - destruct (is_set (write_cb this)) eqn:Hset.
    + rewrite (watch_write code this (fd this) (is_set_true _ Hset)).
      destruct (code (write_cb this) (write_data this) this);
        intros [= <- <- <-]; rewrite interest_mask_cases;
        cbn [fd file read_cb write_cb set_write_cb app
             watcher_after fold_left watcher_step];
        (split; [|split; [reflexivity|split; [reflexivity|]]]).
      * rewrite Hset. exact Hcons.
      * simpl. intuition (subst; reflexivity).
      * change (is_set NULL) with false.
        destruct (is_set (read_cb this));
          rewrite (registrations_drop_single _ _ _ _ Hcons); reflexivity.
      * simpl. intuition (subst; reflexivity).
    + unfold watch. cbn [Z.eqb WATCHER_READ WATCHER_WRITE Pos.eqb].
      rewrite Hset. discriminate.
  - rewrite watch_except. intros [= <- <- <-].
    rewrite interest_mask_cases.
    cbn [app watcher_after fold_left watcher_step].
    split; [|split; [reflexivity|split; [reflexivity|]]].
    + destruct (is_set (read_cb this)), (is_set (write_cb this));
        try (rewrite (registrations_drop_single _ _ _ _ Hcons); reflexivity).
      rewrite registrations_drop_same, Hcons. reflexivity.
    + simpl. intuition (subst; reflexivity).
Qed.

Lemma vprint_alive w0 d this calls format ap libc :
  alive w0 d this calls ->
  alive w0 d (snd (fst (vprint this format ap libc)))
        (calls ++ snd (vprint this format ap libc)).
Proof.
  intros Halive. rewrite vprint_cases.
  destruct (is_set (file this)) eqn:Hfile; cbn [fst snd].
  - apply (alive_step w0 d this calls this); try reflexivity; try assumption.
    + rewrite watcher_after_untouched; [apply Halive|].
      simpl. intuition (subst; reflexivity).
    + simpl. intuition (subst; reflexivity).
  - apply is_set_false in Hfile.
    destruct Halive as (Hfd & Hcons & Hrel & Hopen & _).
    assert (Hopened :
              forall d' mode h,
                In (libc_fdopen d' mode h) calls -> 
                d' = d /\ mode = "w+"%string /\ h = NULL).
    { intros d' mode h Hin.
      destruct (Hopen d' mode h Hin) as (E1 & E2 & [E3|E3]);
        repeat split; congruence. }
    destruct (is_set (fdopen_ret libc)) eqn:Hret; cbn [fst snd];
      unfold alive; rewrite watcher_after_app;
      cbn [fd file set_file];
      (split; [exact Hfd|]); (split; [|split; [|split]]).
    + rewrite watcher_after_untouched.
      * apply (consistent_same_slots _ this); try reflexivity. exact Hcons.
      * simpl. intuition (subst; reflexivity).
    + intros c Hin. apply in_app_or in Hin. destruct Hin as [Hin|Hin].
      * apply Hrel, Hin.
      * simpl in Hin. intuition (subst; reflexivity).
    + intros d' mode h Hin. apply in_app_or in Hin.
      destruct Hin as [Hin|Hin].
      * destruct (Hopened d' mode h Hin) as (E1 & E2 & E3). auto.
      * simpl in Hin. destruct Hin as [E|[E|[]]]; [|discriminate E].
        injection E as <- <- <-. auto.
    + intros _. apply in_or_app. right. left. rewrite Hfd. reflexivity.
    + rewrite watcher_after_untouched.
      * apply (consistent_same_slots _ this); try reflexivity. exact Hcons.
      * simpl. intuition (subst; reflexivity).
    + intros c Hin. apply in_app_or in Hin. destruct Hin as [Hin|Hin].
      * apply Hrel, Hin.
      * simpl in Hin. intuition (subst; reflexivity).
    + intros d' mode h Hin. apply in_app_or in Hin.
      destruct Hin as [Hin|Hin].
      * destruct (Hopened d' mode h Hin) as (E1 & E2 & E3). auto.
      * simpl in Hin. destruct Hin as [E|[]].
        injection E as <- <- <-. auto.
    + intros Hset. apply is_set_false in Hret. contradiction.
Qed.

(** The invariant holds all along the life of a stream. *)
Lemma lifetime_alive {P : platform} w0 d this calls :
  registrations w0 d = [] ->
  lifetime d this calls ->
  alive w0 d this calls.
Proof.
  intros Hw0 Hlife.
  induction Hlife as
    [ | this calls buf len block kernel t _ IH Hread
      | this calls buf len block kernel t _ IH Hwrite
      | this calls cb data _ IH
      | this calls cb data _ IH
      | this calls format ap libc _ IH
      | this calls format args libc _ IH
      | this calls code k keep this' calls' _ IH Hdispatch ].
  - unfold alive. simpl. split; [reflexivity|].
    split; [exact Hw0|]. split; [intros c []|].
    split; [intros d' mode h []|]. intros H. exfalso. apply H. reflexivity.
  - destruct (read__returned _ _ _ _ _ _ Hread) as (_ & -> & Hcalls).
    destruct (transfer_calls_quiet (read_call this buf len block) (t_calls t))
      as [Hquiet Hidle]; try assumption;
      try (unfold read_call; destruct block; reflexivity).
    apply (alive_step w0 d this calls this); try reflexivity; try assumption.
    rewrite (watcher_after_untouched _ _ Hidle). apply IH.
  - destruct (write__returned _ _ _ _ _ _ Hwrite) as (_ & -> & Hcalls).
    destruct (transfer_calls_quiet (write_call this buf len block) (t_calls t))
      as [Hquiet Hidle]; try assumption;
      try (unfold write_call; destruct block; reflexivity).
    apply (alive_step w0 d this calls this); try reflexivity; try assumption.
    rewrite (watcher_after_untouched _ _ Hidle). apply IH.
  - apply (alive_step w0 d this calls); try reflexivity; try assumption.
    + apply (reregister_never_overlapping _ this (fst (on_read this cb data)));
        [apply IH|reflexivity].
    + apply reregister_calls_quiet.
  - apply (alive_step w0 d this calls); try reflexivity; try assumption.
    + apply (reregister_never_overlapping _ this (fst (on_write this cb data)));
        [apply IH|reflexivity].
    + apply reregister_calls_quiet.
  - apply vprint_alive, IH.
  - apply (vprint_alive w0 d this calls format args libc IH).
  - assert (Hcons : consistent (watcher_after w0 calls) this) by apply IH.
    destruct (dispatch_preserves code _ this k keep this' calls' Hcons Hdispatch)
      as (Hcons' & Hfd' & Hfile' & Hquiet).
    apply (alive_step w0 d this calls); assumption.
Qed.

Lemma releases_none calls :
  (forall c, In c calls -> releases_descriptor c = false) ->
  releases calls = 0%nat.
Proof.
  unfold releases. induction calls as [|c calls IH]; intros H; [reflexivity|].
  simpl. rewrite (H c (or_introl eq_refl)). apply IH.
  intros c' Hin. apply H. right. exact Hin.
Qed.

Lemma releases_app calls1 calls2 :
  releases (calls1 ++ calls2) = (releases calls1 + releases calls2)%nat.
Proof. unfold releases. rewrite filter_app. apply length_app. Qed.

(** [destroy], call by call. *)
Lemma destroy_calls this :
  destroy this =
  (if any_cb this then [watcher_remove_call (fd this)] else [])
  ++ [if is_set (file this) then libc_fclose (file this)
      else sys_close (fd this)]
  ++ [libc_free].
Proof.
  unfold destroy. rewrite remove_watcher_any.
  destruct (is_set (file this)); reflexivity.
Qed.

Lemma destroy_deregisters w this :
  consistent w this ->
  registrations (watcher_after w (destroy this)) (fd this) = [].
Proof.
  intros Hcons. rewrite destroy_calls.
  destruct (any_cb this) eqn:Hany.
  - destruct (is_set (file this)); simpl; apply registrations_remove_same.
  - assert (E : registrations w (fd this) = []).
    { rewrite Hcons, (interest_mask_none _ Hany). reflexivity. }
    destruct (is_set (file this)); simpl; exact E.
Qed.

(** ** Claims on the lifecycle *)

(** C6. [destroy] first removes the watcher registration (making the call
    only when a callback is set; with none set nothing is registered), then
    closes exactly one of the two: the buffered handle when one was opened,
    else the raw descriptor; then frees the object.  Over the whole life of
    a stream this is the only release of the descriptor; once [fdopen] has
    succeeded the raw descriptor is never closed directly, and the handle
    closed is the one [fdopen] returned. *)
Theorem destroy_releases_once {P : platform} w0 d this calls :
  registrations w0 d = [] ->
  lifetime d this calls ->
  destroy this =
    (if any_cb this then [watcher_remove_call d] else [])
    ++ [if is_set (file this) then libc_fclose (file this) else sys_close d]
    ++ [libc_free]
  /\ registrations (watcher_after w0 (calls ++ destroy this)) d = []
  /\ releases calls = 0%nat
  /\ releases (destroy this) = 1%nat
  /\ releases (calls ++ destroy this) = 1%nat
  /\ (opened_handle d calls ->
      file this <> NULL
      /\ In (libc_fdopen d "w+" (file this)) calls
      /\ In (libc_fclose (file this)) (destroy this)
      /\ forall d', ~ In (sys_close d') (calls ++ destroy this))
  /\ (~ opened_handle d calls ->
      file this = NULL
      /\ In (sys_close d) (destroy this)
      /\ forall h, ~ In (libc_fclose h) (calls ++ destroy this)).
Proof.
  intros Hw0 Hlife.
  destruct (lifetime_alive w0 d this calls Hw0 Hlife)
    as (Hfd & Hcons & Hrel & Hopen & Hfile).
  assert (Hshape := destroy_calls this). rewrite Hfd in Hshape.
  assert (Hnone : releases calls = 0%nat) by (apply releases_none, Hrel).
  assert (Hone : releases (destroy this) = 1%nat).
  { rewrite Hshape. destruct (any_cb this), (is_set (file this)); reflexivity. }
  split; [exact Hshape|]. split; [|split; [exact Hnone|split; [exact Hone|]]].
  { rewrite watcher_after_app, <- Hfd. apply destroy_deregisters, Hcons. }
  split; [rewrite releases_app, Hnone, Hone; reflexivity|].
  split.
  - intros (h & Hh & Hin).
    destruct (Hopen _ _ _ Hin) as (_ & _ & [E|E]); [contradiction|].
    subst h. split; [exact Hh|]. split; [exact Hin|].
    rewrite Hshape, (is_set_nonnull _ Hh). split.
    + apply in_or_app. right. left. reflexivity.
    + intros d' Hin'. apply in_app_or in Hin'. destruct Hin' as [Hin'|Hin'].
      * specialize (Hrel _ Hin'). discriminate Hrel.
      * destruct (any_cb this); simpl in Hin';
          intuition discriminate.
  - intros Hnever.
    assert (E : file this = NULL).
    { destruct (Z.eq_dec (file this) NULL) as [E|E]; [exact E|].
      exfalso. apply Hnever. exists (file this). split; [exact E|].
      apply Hfile, E. }
    split; [exact E|].
    rewrite Hshape, (is_set_null _ E). split.
    + apply in_or_app. right. left. reflexivity.
    + intros h Hin'. apply in_app_or in Hin'. destruct Hin' as [Hin'|Hin'].
      * specialize (Hrel _ Hin'). discriminate Hrel.
      * destruct (any_cb this); simpl in Hin';
          intuition discriminate.
Qed.

(** An ordinary reader over descriptor 3: it registers a read callback,
    which keeps at the first dispatch and declines at the second. *)
Lemma reader_keeps_then_declines :
  lifetime (P := one_name) 3 (mk_stream 3 NULL NULL 7 NULL NULL)
    ((([] ++ [watcher_add_call 3 WATCHER_READ])
      ++ [stream_cb_call 100 7; watch_return 3 WATCHER_READ true])
     ++ [stream_cb_call 100 7; watch_return 3 WATCHER_READ false]).
Proof.
  exact (life_dispatch 3 reader3 _ never_keep Readable false
           (mk_stream 3 NULL NULL 7 NULL NULL)
           [stream_cb_call 100 7; watch_return 3 WATCHER_READ false]
           (life_dispatch 3 reader3 _ always_keep Readable true reader3
              [stream_cb_call 100 7; watch_return 3 WATCHER_READ true]
              (life_on_read 3 fresh3 [] 100 7 (life_create 3))
              eq_refl)
           eq_refl).
Defined.

(** The reader above then prints once (the open returns handle 900) and is
    destroyed: no watcher call is left to make, and the one release of the
    whole life is the [fclose] of 900. *)
Lemma destroy_releases_once_witness :
  destroy (mk_stream 3 900 NULL 7 NULL NULL) = [libc_fclose 900; libc_free]
  /\ releases
       ((((([] ++ [watcher_add_call 3 WATCHER_READ])
           ++ [stream_cb_call 100 7; watch_return 3 WATCHER_READ true])
          ++ [stream_cb_call 100 7; watch_return 3 WATCHER_READ false])
         ++ [libc_fdopen 3 "w+" 900; libc_vfprintf 900 500 [] 5])
        ++ destroy (mk_stream 3 900 NULL 7 NULL NULL)) = 1%nat.
Proof.
  assert (Hlife :
            lifetime (P := one_name) 3 (mk_stream 3 900 NULL 7 NULL NULL)
              (((([] ++ [watcher_add_call 3 WATCHER_READ])
                 ++ [stream_cb_call 100 7; watch_return 3 WATCHER_READ true])
                ++ [stream_cb_call 100 7; watch_return 3 WATCHER_READ false])
               ++ [libc_fdopen 3 "w+" 900; libc_vfprintf 900 500 [] 5])).
  { exact (life_vprint 3 (mk_stream 3 NULL NULL 7 NULL NULL) _ 500 []
             (mk_stdio 900 5) reader_keeps_then_declines). }
  destruct (destroy_releases_once (P := one_name) [] 3 _ _
              eq_refl Hlife) as (Hshape & _ & _ & _ & Hone & _).
  split; [exact Hshape|exact Hone].
Defined.

(** ** Frame conditions *)

(** C10. [on_read] leaves the write callback, the write data, the
    descriptor and the buffered handle as they were; [on_write] leaves the
    read callback, the read data, the descriptor and the buffered handle as
    they were; [read_] and [write_] return (as soon as the kernel gives an
    answer that is not an interruption) with every field of the stream as
    it was. *)
Theorem calls_leave_other_fields {P : platform} this :
  (forall cb data,
      let this' := fst (on_read this cb data) in
      write_cb this' = write_cb this /\ write_data this' = write_data this
      /\ fd this' = fd this /\ file this' = file this)
  /\ (forall cb data,
        let this' := fst (on_write this cb data) in
        read_cb this' = read_cb this /\ read_data this' = read_data this
        /\ fd this' = fd this /\ file this' = file this)
  /\ (forall buf len block kernel t,
        read_ this buf len block kernel = Some t
        \/ write_ this buf len block kernel = Some t ->
        t_this t = this)
  /\ (EINTR <> EAGAIN -> EINTR <> EWOULDBLOCK ->
      forall buf len block pre a rest,
        Forall interrupted pre -> ~ interrupted a ->
        (exists t, read_ this buf len block (pre ++ a :: rest) = Some t
                   /\ t_this t = this)
        /\ (exists t, write_ this buf len block (pre ++ a :: rest) = Some t
                      /\ t_this t = this)).
Proof.
  split; [|split; [|split]].
  - intros cb data. cbv zeta. repeat split.
  - intros cb data. cbv zeta. repeat split.
  - intros buf len block kernel t [H|H].
    + apply (read__returned _ _ _ _ _ _ H).
    + apply (write__returned _ _ _ _ _ _ H).
  - intros Hne1 Hne2 buf len block pre a rest Hpre Hnot. split.
    + destruct (read__retries this buf len block pre a rest Hne1 Hne2 Hpre Hnot)
        as (t & Ht & Hback).
      exists t. split; [exact Ht|apply Hback].
    + destruct (write__retries this buf len block pre a rest Hne1 Hne2 Hpre Hnot)
        as (t & Ht & Hback).
      exists t. split; [exact Ht|apply Hback].
Qed.

(** A non-blocking write on [duplex3], interrupted once, then 5 bytes. *)
Lemma calls_leave_other_fields_witness :
  exists t,
    write_ (P := two_names) duplex3 0 16 false
           ([mk_attempt (-1) 4] ++ mk_attempt 5 0 :: []) = Some t
    /\ t_this t = duplex3.
Proof.
  destruct (calls_leave_other_fields (P := two_names) duplex3)
    as (_ & _ & _ & H).
  apply (H ltac:(simpl; lia) ltac:(simpl; lia) 0 16 false
           [mk_attempt (-1) 4] (mk_attempt 5 0) []).
  - repeat constructor.
  - intros [Hret _]. simpl in Hret. lia.
Defined.

(** * Further properties of the code *)

(** ** Transfer loop *)

Lemma interrupted_dec {P : platform} a : {interrupted a} + {~ interrupted a}.
Proof.
  unfold interrupted.
  destruct (Z.eq_dec (a_ret a) (-1)) as [H1|H1];
    destruct (Z.eq_dec (a_errno a) EINTR) as [H2|H2];
    try (right; intros [? ?]; contradiction).
  left. split; assumption.
Qed.

(** A transfer that does not return -1 is handed back at once, after one
    system call, with [errno] as the kernel left it: a byte count (zero
    included) is never retried and never has its [errno] rewritten, even
    when [errno] holds a stale [EINTR] or [EAGAIN], on any platform. *)
Theorem transferred_bytes_returned_at_once {P : platform}
    this buf len block a rest :
  a_ret a <> -1 ->
  read_ this buf len block (a :: rest) =
    Some (mk_transfer (a_ret a) (a_errno a) this
                      [read_call this buf len block])
  /\ write_ this buf len block (a :: rest) =
       Some (mk_transfer (a_ret a) (a_errno a) this
                         [write_call this buf len block]).
Proof.
  intros Hret. apply Z.eqb_neq in Hret.
  rewrite read__turn, write__turn. unfold retry_test, turn_errno.
  rewrite Hret. simpl. destruct block; split; reflexivity.
Qed.

(** An orderly close (zero bytes) on a non-blocking read while [errno]
    still holds [EINTR]. *)
Lemma transferred_bytes_returned_at_once_witness :
  read_ (P := two_names) fresh3 0 16 false [mk_attempt 0 4] =
  Some (mk_transfer 0 4 fresh3 [sys_recv 3 0 16 64]).
Proof.
  apply (transferred_bytes_returned_at_once (P := two_names)
           fresh3 0 16 false (mk_attempt 0 4) []).
  simpl. lia.
Defined.

Lemma retry_test_true_interrupted {P : platform} block a :
  EINTR <> EWOULDBLOCK -> retry_test block a = true -> interrupted a.
Proof.
  intros Hne Htest. destruct (interrupted_dec a) as [H|H]; [exact H|].
  rewrite (retry_test_settled block a Hne H) in Htest. discriminate.
Qed.

Lemma read__pending {P : platform} this buf len block kernel :
  EINTR <> EAGAIN -> EINTR <> EWOULDBLOCK ->
  read_ this buf len block kernel = None <-> Forall interrupted kernel.
Proof.
  intros Hne1 Hne2. induction kernel as [|a kernel IH].
  - split; [constructor|reflexivity].
  - rewrite read__turn. destruct (retry_test block a) eqn:Htest.
    + pose proof (retry_test_true_interrupted _ _ Hne2 Htest) as Ha.
      split.
      * intros H. constructor; [exact Ha|]. apply IH.
        destruct (read_ this buf len block kernel); [discriminate|reflexivity].
      * intros H. inversion H as [|? ? _ Hk]; subst.
        apply IH in Hk. rewrite Hk. reflexivity.
    + split; [discriminate|].
      intros H. inversion H as [|? ? Ha _]; subst.
      rewrite (retry_test_interrupted block a Hne1 Ha) in Htest.
      discriminate.
Qed.

Lemma write__pending {P : platform} this buf len block kernel :
  EINTR <> EAGAIN -> EINTR <> EWOULDBLOCK ->
  write_ this buf len block kernel = None <-> Forall interrupted kernel.
Proof.
  intros Hne1 Hne2. induction kernel as [|a kernel IH].
  - split; [constructor|reflexivity].
  - rewrite write__turn. destruct (retry_test block a) eqn:Htest.
    + pose proof (retry_test_true_interrupted _ _ Hne2 Htest) as Ha.
      split.
      * intros H. constructor; [exact Ha|]. apply IH.
        destruct (write_ this buf len block kernel); [discriminate|reflexivity].
      * intros H. inversion H as [|? ? _ Hk]; subst.
        apply IH in Hk. rewrite Hk. reflexivity.
    + split; [discriminate|].
      intros H. inversion H as [|? ? Ha _]; subst.
      rewrite (retry_test_interrupted block a Hne1 Ha) in Htest.
      discriminate.
Qed.

(** The retry loop has no bound: [read_] and [write_] are still running
    after a series of kernel answers exactly when every one of them was an
    interruption; any other answer ends the call. *)
Theorem transfer_pending_iff_all_interrupted {P : platform}
    this buf len block kernel :
  EINTR <> EAGAIN -> EINTR <> EWOULDBLOCK ->
  (read_ this buf len block kernel = None <-> Forall interrupted kernel)
  /\ (write_ this buf len block kernel = None <-> Forall interrupted kernel).
Proof.
  intros Hne1 Hne2. split.
  - apply read__pending; assumption.
  - apply write__pending; assumption.
Qed.

(** Three interruptions in a row leave a blocking write still running. *)
Lemma transfer_pending_iff_all_interrupted_witness :
  write_ (P := one_name) fresh3 0 16 true
         [mk_attempt (-1) 4; mk_attempt (-1) 4; mk_attempt (-1) 4] = None.
Proof.
  destruct (transfer_pending_iff_all_interrupted (P := one_name)
              fresh3 0 16 true
              [mk_attempt (-1) 4; mk_attempt (-1) 4; mk_attempt (-1) 4])
    as [_ [_ H]].
  - simpl. lia.
  - simpl. lia.
  - apply H. repeat constructor.
Defined.

(** ** Creation *)

(** A stream just created has its descriptor in [fd] and every other
    member null: destroying it closes the raw
    descriptor and frees the object without any call to the watcher; it
    agrees with any watcher that holds nothing for its descriptor; and its
    first [on_read]/[on_write] makes no remove call, only the registration
    for that one direction (or no call at all for a null callback). *)
Theorem fresh_stream_is_unregistered d :
  (fd (stream_create_from_fd d) = d
   /\ file (stream_create_from_fd d) = NULL
   /\ read_cb (stream_create_from_fd d) = NULL
   /\ read_data (stream_create_from_fd d) = NULL
   /\ write_cb (stream_create_from_fd d) = NULL
   /\ write_data (stream_create_from_fd d) = NULL)
  /\ destroy (stream_create_from_fd d) = [sys_close d; libc_free]
  /\ (forall w, registrations w d = [] ->
                consistent w (stream_create_from_fd d))
  /\ (forall cb data,
        snd (on_read (stream_create_from_fd d) cb data) =
        if is_set cb then [watcher_add_call d WATCHER_READ] else [])
  /\ (forall cb data,
        snd (on_write (stream_create_from_fd d) cb data) =
        if is_set cb then [watcher_add_call d WATCHER_WRITE] else []).
Proof.
  split; [repeat split|]. split; [reflexivity|]. split; [|split].
  - intros w Hw. unfold consistent. simpl. exact Hw.
  - intros cb data. unfold on_read, remove_watcher, add_watcher. simpl.
    destruct (is_set cb); reflexivity.
  - intros cb data. unfold on_write, remove_watcher, add_watcher. simpl.
    destruct (is_set cb); reflexivity.
Qed.

Lemma fresh_stream_is_unregistered_witness :
  consistent [(4, WATCHER_READ)] (stream_create_from_fd 3).
Proof.
  destruct (fresh_stream_is_unregistered 3) as (_ & _ & H & _).
  apply H. reflexivity.
Defined.

(** ** Composition of registrations *)

(** After any sequence of registrations the watcher holds, for the
    descriptor, the registration of the slots the sequence leaves. *)
Lemma run_registrations_registration w this rs :
  consistent w this ->
  registrations (watcher_after w (snd (run_registrations this rs))) (fd this)
  = entry_for (fd this) (interest_mask (fst (run_registrations this rs))).
Proof.
  intros Hcons.
  destruct (run_registrations_never_overlapping rs w this Hcons)
    as (_ & H & Hfd).
  unfold consistent in H. rewrite Hfd in H. exact H.
Qed.

(** Only the most recent registration of a direction survives: [on_read]
    twice leaves the struct, and the watcher's registration for the
    descriptor, exactly as the second call alone would; likewise
    [on_write]. *)
Theorem last_registration_wins w this cb1 data1 cb2 data2 :
  consistent w this ->
  (fst (run_registrations this [OnRead cb1 data1; OnRead cb2 data2])
   = fst (on_read this cb2 data2)
   /\ registrations
        (watcher_after w
           (snd (run_registrations this [OnRead cb1 data1; OnRead cb2 data2])))
        (fd this)
      = registrations (watcher_after w (snd (on_read this cb2 data2)))
                      (fd this))
  /\ (fst (run_registrations this [OnWrite cb1 data1; OnWrite cb2 data2])
      = fst (on_write this cb2 data2)
      /\ registrations
           (watcher_after w
              (snd (run_registrations this
                      [OnWrite cb1 data1; OnWrite cb2 data2])))
           (fd this)
         = registrations (watcher_after w (snd (on_write this cb2 data2)))
                         (fd this)).
Proof.
  intros Hcons. split.
  - assert (E : fst (run_registrations this
                       [OnRead cb1 data1; OnRead cb2 data2])
                = fst (on_read this cb2 data2)) by reflexivity.
    split; [exact E|].
    rewrite (run_registrations_registration w this _ Hcons), E.
    symmetry. apply on_read_consistent, Hcons.
  - assert (E : fst (run_registrations this
                       [OnWrite cb1 data1; OnWrite cb2 data2])
                = fst (on_write this cb2 data2)) by reflexivity.
    split; [exact E|].
    rewrite (run_registrations_registration w this _ Hcons), E.
    symmetry. apply on_write_consistent, Hcons.
Qed.

(** [duplex3] replaces its read callback twice; the second one stays. *)
Lemma last_registration_wins_witness :
  fst (run_registrations duplex3 [OnRead 300 9; OnRead 400 10])
  = mk_stream 3 NULL 400 10 200 8.
Proof.
  assert (H0 : consistent duplex3_watcher duplex3) by reflexivity.
  destruct (last_registration_wins duplex3_watcher duplex3 300 9 400 10 H0)
    as ((H & _) & _).
  exact H.
Defined.

(** The two directions are independent: [on_read] then [on_write] leaves
    the struct, and the watcher's registration for the descriptor, exactly
    as [on_write] then [on_read] does. *)
Theorem registrations_commute w this rcb rdata wcb wdata :
  consistent w this ->
  fst (run_registrations this [OnRead rcb rdata; OnWrite wcb wdata])
  = fst (run_registrations this [OnWrite wcb wdata; OnRead rcb rdata])
  /\ registrations
       (watcher_after w
          (snd (run_registrations this [OnRead rcb rdata; OnWrite wcb wdata])))
       (fd this)
     = registrations
         (watcher_after w
            (snd (run_registrations this
                    [OnWrite wcb wdata; OnRead rcb rdata])))
         (fd this).
Proof.
  intros Hcons.
  assert (E : fst (run_registrations this [OnRead rcb rdata; OnWrite wcb wdata])
              = fst (run_registrations this
                       [OnWrite wcb wdata; OnRead rcb rdata]))
    by reflexivity.
  split; [exact E|].
  rewrite !(run_registrations_registration w this _ Hcons), E. reflexivity.
Qed.

Lemma registrations_commute_witness :
  registrations
    (watcher_after []
       (snd (run_registrations fresh3 [OnRead 100 7; OnWrite 200 8]))) 3
  = registrations
      (watcher_after []
         (snd (run_registrations fresh3 [OnWrite 200 8; OnRead 100 7]))) 3.
Proof.
  assert (H0 : consistent [] fresh3) by reflexivity.
  destruct (registrations_commute [] fresh3 100 7 200 8 H0) as (_ & H).
  exact H.
Defined.

(** ** Runs of formatted output *)

Lemma run_prints_cons this p ps :
  run_prints this (p :: ps) =
  let r1 := print this (p_format p) (p_args p) (p_libc p) in
  let r2 := run_prints (snd (fst r1)) ps in
  (fst (fst r1) :: fst (fst r2), snd (fst r2), snd r1 ++ snd r2).
Proof.
  simpl. destruct (print this (p_format p) (p_args p) (p_libc p))
    as [[ret this1] calls1]. simpl.
  destruct (run_prints this1 ps) as [[rets this2] calls2]. reflexivity.
Qed.

Lemma successful_opens_app calls1 calls2 :
  successful_opens (calls1 ++ calls2) =
  (successful_opens calls1 + successful_opens calls2)%nat.
Proof. unfold successful_opens. rewrite filter_app. apply length_app. Qed.

(** One [vprint], whatever the C library answers. *)
Lemma vprint_step this format ap libc :
  let r := vprint this format ap libc in
  let this1 := snd (fst r) in
  (fd this1 = fd this /\ read_cb this1 = read_cb this
   /\ read_data this1 = read_data this /\ write_cb this1 = write_cb this
   /\ write_data this1 = write_data this)
  /\ (file this <> NULL ->
      file this1 = file this /\ successful_opens (snd r) = 0%nat)
  /\ (successful_opens (snd r) <= 1)%nat
  /\ (successful_opens (snd r) = 1%nat -> file this1 <> NULL)
  /\ (forall c, In c (snd r) ->
                touches_watcher c = false /\ releases_descriptor c = false)
  /\ (forall f fmt args ret,
        In (libc_vfprintf f fmt args ret) (snd r) ->
        f = file this1 /\ f <> NULL)
  /\ (file this1 = NULL -> fst (fst r) = -1).
Proof.
  cbv zeta. rewrite vprint_cases.
  destruct (is_set (file this)) eqn:Hfile.
  - pose proof (is_set_true _ Hfile) as Hset. cbn [fst snd].
    split; [repeat split|]. split; [intros _; split; reflexivity|].
    split; [cbn; lia|]. split; [cbn; discriminate|].
    split; [|split].
    + intros c [<-|[]]. split; reflexivity.
    + intros f fmt args ret [E|[]]. injection E as <- _ _ _.
      split; [reflexivity|exact Hset].
    + intros E. contradiction.
  - pose proof (is_set_false _ Hfile) as Hnull.
    destruct (is_set (fdopen_ret libc)) eqn:Hret; cbn [fst snd];
      (split; [repeat split|]);
      (split; [intros H; contradiction|]).
    + pose proof (is_set_true _ Hret) as Hset.
      unfold successful_opens. cbn [filter successful_open]. rewrite Hret.
      split; [cbn; lia|]. split; [intros _; exact Hset|].
      split; [|split].
      * intros c [<-|[<-|[]]]; split; reflexivity.
      * intros f fmt args ret [E|[E|[]]]; [discriminate E|].
        injection E as <- _ _ _. split; [reflexivity|exact Hset].
      * intros E. cbn in E. contradiction.
    + unfold successful_opens. cbn [filter successful_open]. rewrite Hret.
      split; [cbn; lia|]. split; [cbn; discriminate|].
      split; [|split].
      * intros c [<-|[]]; split; reflexivity.
      * intros f fmt args ret [E|[]]. discriminate E.
      * reflexivity.
Qed.

(** Over any run of [print] calls: only [file] can change, and only from
    null to a handle that then stays; no call reaches the watcher or closes
    anything; at most one [fdopen] succeeds, none once a handle exists;
    every [vfprintf] writes through the handle the run ends with; and if the
    run ends without a handle, every call returned -1. *)
Theorem prints_keep_one_handle ps : forall this,
  let r := run_prints this ps in
  let this' := snd (fst r) in
  length (fst (fst r)) = length ps
  /\ (fd this' = fd this /\ read_cb this' = read_cb this
      /\ read_data this' = read_data this /\ write_cb this' = write_cb this
      /\ write_data this' = write_data this)
  /\ (file this <> NULL ->
      file this' = file this /\ successful_opens (snd r) = 0%nat)
  /\ (successful_opens (snd r) <= 1)%nat
  /\ (forall c, In c (snd r) ->
                touches_watcher c = false /\ releases_descriptor c = false)
  /\ (forall f fmt args ret,
        In (libc_vfprintf f fmt args ret) (snd r) ->
        f = file this' /\ f <> NULL)
  /\ (file this' = NULL -> Forall (eq (-1)) (fst (fst r))).
Proof.
  induction ps as [|p ps IH]; intros this; cbv zeta.
  - simpl. split; [reflexivity|]. split; [repeat split|].
    split; [intros _; split; reflexivity|]. split; [cbn; lia|].
    split; [intros c []|]. split; [intros f fmt args ret []|].
    intros _. constructor.
  - rewrite run_prints_cons. cbv zeta. cbn [fst snd]. unfold print.
    pose proof (vprint_step this (p_format p) (p_args p) (p_libc p)) as S1.
    cbv zeta in S1.
    set (r1 := vprint this (p_format p) (p_args p) (p_libc p)) in *.
    specialize (IH (snd (fst r1))). cbv zeta in IH.
    set (r2 := run_prints (snd (fst r1)) ps) in *.
    destruct S1 as ((F1 & F2 & F3 & F4 & F5) & K1 & O1 & S1 & Q1 & V1 & N1).
    destruct IH as (L2 & (G1 & G2 & G3 & G4 & G5) & K2 & O2 & Q2 & V2 & N2).
    split; [simpl; rewrite L2; reflexivity|].
    split; [repeat split; congruence|].
    split; [|split; [|split; [|split]]].
    + intros Hset. destruct (K1 Hset) as [E1 Z1].
      assert (Hset1 : file (snd (fst r1)) <> NULL) by congruence.
      destruct (K2 Hset1) as [E2 Z2].
      split; [congruence|]. rewrite successful_opens_app, Z1, Z2. reflexivity.
    + rewrite successful_opens_app.
      destruct (Nat.eq_dec (successful_opens (snd r1)) 1) as [E|E].
      * destruct (K2 (S1 E)) as [_ Z2]. lia.
      * lia.
    + intros c Hin. apply in_app_or in Hin. destruct Hin as [Hin|Hin].
      * apply Q1, Hin.
      * apply Q2, Hin.
    + intros f fmt args ret Hin. apply in_app_or in Hin.
      destruct Hin as [Hin|Hin].
      * destruct (V1 _ _ _ _ Hin) as [-> Hset].
        destruct (K2 Hset) as [E2 _]. split; [symmetry; exact E2|exact Hset].
      * apply (V2 _ _ _ _ Hin).
    + intros Hnull. constructor.
      * symmetry. apply N1.
        destruct (Z.eq_dec (file (snd (fst r1))) NULL) as [E|E]; [exact E|].
        destruct (K2 E) as [E2 _]. congruence.
      * apply N2, Hnull.
Qed.

(** A stream that holds handle 900 prints once: the handle the C library
    would hand out is not asked for, and 900 stays. *)
Lemma prints_keep_one_handle_witness :
  file (snd (fst (run_prints (mk_stream 3 900 NULL NULL NULL NULL)
                    [mk_print_request 500 [] (mk_stdio 901 4)])))
  = 900.
Proof.
  destruct (prints_keep_one_handle
              [mk_print_request 500 [] (mk_stdio 901 4)]
              (mk_stream 3 900 NULL NULL NULL NULL))
    as (_ & _ & H & _).
  apply H. simpl. discriminate.
Defined.

(** ** What a stream does over its whole life *)

Lemma registrations_add_other w d events d' :
  d' <> d -> registrations (watcher_add w d events) d' = registrations w d'.
Proof.
  intros Hne. unfold watcher_add, registrations at 1. simpl.
  destruct (Z.eqb_spec d d') as [E|_]; [congruence|].
  apply registrations_remove_other, Hne.
Qed.

Lemma registrations_drop_other w d event d' :
  d' <> d -> registrations (watcher_drop w d event) d' = registrations w d'.
Proof.
  intros Hne. unfold registrations, watcher_drop.
  induction w as [|e w IH]; simpl; [reflexivity|].
  rewrite filter_app, IH.
  destruct (Z.eqb_spec (fst e) d) as [E|E].
  - destruct (Z.eqb_spec (fst e) d') as [E'|_]; [congruence|].
    destruct (Z.ldiff (snd e) event =? 0); simpl; [reflexivity|].
    destruct (Z.eqb_spec (fst e) d') as [E'|_]; [congruence|reflexivity].
  - simpl. destruct (fst e =? d'); reflexivity.
Qed.

(** Calls that name descriptor [d] leave every other descriptor's
    registrations alone. *)
Lemma own_calls_leave_others {P : platform} d d' calls : forall w,
  d' <> d -> Forall (own_call d) calls ->
  registrations (watcher_after w calls) d' = registrations w d'.
Proof.
  induction calls as [|c calls IH]; intros w Hne Hown; [reflexivity|].
  inversion Hown as [|? ? Hc Hrest]; subst.
  cbn [watcher_after fold_left]. fold (watcher_after (watcher_step w c) calls).
  rewrite (IH _ Hne Hrest).
  destruct c; try reflexivity; cbn [watcher_step own_call] in *.
  - subst. apply registrations_remove_other, Hne.
  - destruct Hc as [-> _]. apply registrations_add_other, Hne.
  - subst. destruct keep; [reflexivity|].
    apply registrations_drop_other, Hne.
Qed.

Lemma watch_calls (code : callbacks) this d0 event keep this' calls :
  watch code this d0 event = Some (keep, this', calls) ->
  fd this' = fd this
  /\ forall c, In c calls -> exists cb data, c = stream_cb_call cb data.
Proof.
  unfold watch.
  destruct (event =? WATCHER_READ).
  - destruct (is_set (read_cb this)); [|discriminate].
    destruct (code (read_cb this) (read_data this) this); cbn [negb];
      intros [= <- <- <-]; (split; [reflexivity|]);
      intros c [<-|[]]; eauto.
  - destruct (event =? WATCHER_WRITE).
    + destruct (is_set (write_cb this)); [|discriminate].
      destruct (code (write_cb this) (write_data this) this); cbn [negb];
        intros [= <- <- <-]; (split; [reflexivity|]);
        intros c [<-|[]]; eauto.
    + intros [= <- <- <-]. split; [reflexivity|]. intros c [].
Qed.

Lemma reregister_own_calls {P : platform} this this' :
  fd this' = fd this ->
  Forall (own_call (fd this)) (remove_watcher this ++ add_watcher this').
Proof.
  intros Hfd. rewrite remove_watcher_any, add_watcher_interest, Hfd.
  apply Forall_app. split.
  - destruct (any_cb this); repeat constructor.
  - destruct (interest_mask this' =? 0) eqn:E; [constructor|].
    constructor; [|constructor]. split; [reflexivity|].
    rewrite interest_mask_cases in *.
    destruct (is_set (read_cb this')), (is_set (write_cb this'));
      auto; discriminate E.
Qed.

Lemma vprint_own_calls {P : platform} this format ap libc :
  Forall (own_call (fd this)) (snd (vprint this format ap libc)).
Proof.
  rewrite vprint_cases.
  destruct (is_set (file this)); [repeat constructor|].
  destruct (is_set (fdopen_ret libc)); repeat constructor.
Qed.

Lemma vprint_fd this format ap libc :
  fd (snd (fst (vprint this format ap libc))) = fd this.
Proof.
  rewrite vprint_cases.
  destruct (is_set (file this)); [reflexivity|].
  destruct (is_set (fdopen_ret libc)); reflexivity.
Qed.

Lemma lifetime_own_calls {P : platform} d this calls :
  lifetime d this calls ->
  fd this = d /\ Forall (own_call d) calls.
Proof.
  intros Hlife.
  induction Hlife as
    [ | this calls buf len block kernel t _ [Hfd IH] Hread
      | this calls buf len block kernel t _ [Hfd IH] Hwrite
      | this calls cb data _ [Hfd IH]
      | this calls cb data _ [Hfd IH]
      | this calls format ap libc _ [Hfd IH]
      | this calls format args libc _ [Hfd IH]
      | this calls code k keep this' calls' _ [Hfd IH] Hdispatch ].
  - split; [reflexivity|constructor].
  - destruct (read__returned _ _ _ _ _ _ Hread) as (_ & -> & Hcalls).
    split; [exact Hfd|]. apply Forall_app. split; [exact IH|].
    eapply Forall_impl; [|exact Hcalls]. intros c <-.
    unfold read_call. destruct block; cbn; auto.
  - destruct (write__returned _ _ _ _ _ _ Hwrite) as (_ & -> & Hcalls).
    split; [exact Hfd|]. apply Forall_app. split; [exact IH|].
    eapply Forall_impl; [|exact Hcalls]. intros c <-.
    unfold write_call. destruct block; cbn; auto.
  - split; [exact Hfd|]. apply Forall_app. split; [exact IH|].
    rewrite <- Hfd.
    apply (reregister_own_calls this (fst (on_read this cb data))).
    reflexivity.
  - split; [exact Hfd|]. apply Forall_app. split; [exact IH|].
    rewrite <- Hfd.
    apply (reregister_own_calls this (fst (on_write this cb data))).
    reflexivity.
  - split; [rewrite vprint_fd; exact Hfd|].
    apply Forall_app. split; [exact IH|].
    rewrite <- Hfd. apply vprint_own_calls.
  - split; [exact (eq_trans (vprint_fd this format args libc) Hfd)|].
    apply Forall_app. split; [exact IH|].
    rewrite <- Hfd. apply (vprint_own_calls this format args libc).
  - unfold dispatch in Hdispatch.
    destruct (watch code this (fd this) (event_bit k))
      as [[[keep0 this0] calls0]|] eqn:Hwatch; [|discriminate].
    injection Hdispatch as <- <- <-.
    destruct (watch_calls _ _ _ _ _ _ _ Hwatch) as [Hfd0 Hcalls0].
    split; [congruence|]. apply Forall_app. split; [exact IH|].
    apply Forall_app. split.
    + apply Forall_forall. intros c Hin.
      destruct (Hcalls0 c Hin) as (cb & data & ->). exact I.
    + constructor; [exact Hfd|constructor].
Qed.

Lemma destroy_own_calls {P : platform} this :
  Forall (own_call (fd this)) (destroy this).
Proof.
  rewrite destroy_calls.
  destruct (any_cb this), (is_set (file this)); repeat constructor.
Qed.



(** Whatever a stream does over its life, [destroy] included, the
    registrations other descriptors have with the watcher stay as they
    were. *)
Theorem other_descriptors_untouched {P : platform} w0 d this calls d' :
  lifetime d this calls -> d' <> d ->
  registrations (watcher_after w0 (calls ++ destroy this)) d'
  = registrations w0 d'.
Proof.
  intros Hlife Hne.
  destruct (lifetime_own_calls d this calls Hlife) as [Hfd Hown].
  apply own_calls_leave_others with (d := d); [exact Hne|].
  apply Forall_app. split; [exact Hown|].
  rewrite <- Hfd. apply destroy_own_calls.
Qed.

Lemma other_descriptors_untouched_witness :
  registrations
    (watcher_after [(4, WATCHER_WRITE)]
       (((([] ++ [watcher_add_call 3 WATCHER_READ])
          ++ [stream_cb_call 100 7; watch_return 3 WATCHER_READ true])
         ++ [stream_cb_call 100 7; watch_return 3 WATCHER_READ false])
        ++ destroy (mk_stream 3 NULL NULL 7 NULL NULL))) 4
  = [(4, WATCHER_WRITE)].
Proof.
  apply (other_descriptors_untouched (P := one_name)
           [(4, WATCHER_WRITE)] 3 _ _ 4 reader_keeps_then_declines).
  lia.
Defined.

(** Whenever, in the life of a stream, the watcher holds a registration of
    the descriptor that includes read readiness, a read callback is set, so
    a read-ready dispatch has a callback to call; likewise for write
    readiness; and no registration includes exception events. *)
Theorem registered_event_has_callback {P : platform}
    (code : callbacks) w0 d this calls e :
  registrations w0 d = [] ->
  lifetime d this calls ->
  In e (registrations (watcher_after w0 calls) d) ->
  (Z.land (snd e) WATCHER_READ <> 0 ->
   read_cb this <> NULL
   /\ exists keep this' calls',
        dispatch code this Readable = Some (keep, this', calls'))
  /\ (Z.land (snd e) WATCHER_WRITE <> 0 ->
      write_cb this <> NULL
      /\ exists keep this' calls',
           dispatch code this Writable = Some (keep, this', calls'))
  /\ Z.land (snd e) WATCHER_EXCEPT = 0.
Proof.
  intros Hw0 Hlife Hin.
  destruct (lifetime_alive w0 d this calls Hw0 Hlife)
    as (Hfd & Hcons & _).
  unfold consistent in Hcons. rewrite Hfd in Hcons. rewrite Hcons in Hin.
  unfold entry_for in Hin. rewrite interest_mask_cases in Hin.
  assert (Hread : is_set (read_cb this) = true ->
                  read_cb this <> NULL
                  /\ exists keep this' calls',
                       dispatch code this Readable
                       = Some (keep, this', calls')).
  { intros Hset. apply is_set_true in Hset. split; [exact Hset|].
    unfold dispatch. cbn [event_bit].
    rewrite (watch_read code this (fd this) Hset). eauto. }
  assert (Hwrite : is_set (write_cb this) = true ->
                   write_cb this <> NULL
                   /\ exists keep this' calls',
                        dispatch code this Writable
                        = Some (keep, this', calls')).
  { intros Hset. apply is_set_true in Hset. split; [exact Hset|].
    unfold dispatch. cbn [event_bit].
    rewrite (watch_write code this (fd this) Hset). eauto. }
  destruct (is_set (read_cb this)), (is_set (write_cb this));
    simpl in Hin; try contradiction; destruct Hin as [<-|[]]; cbn [snd];
    (split; [|split; [|reflexivity]]); intros Hbit;
    try (apply Hread; reflexivity); try (apply Hwrite; reflexivity);
    exfalso; apply Hbit; reflexivity.
Qed.

(** The reader whose callback kept, then declined, registers another
    read callback: the descriptor is registered for read readiness again
    and the dispatch has the new callback to call. *)
Lemma registered_event_has_callback_witness :
  read_cb (mk_stream 3 NULL 300 9 NULL NULL) <> NULL
  /\ exists keep this' calls',
       dispatch never_keep (mk_stream 3 NULL 300 9 NULL NULL) Readable
       = Some (keep, this', calls').
Proof.
  assert (Hlife :
            lifetime (P := one_name) 3 (mk_stream 3 NULL 300 9 NULL NULL)
              (((([] ++ [watcher_add_call 3 WATCHER_READ])
                 ++ [stream_cb_call 100 7; watch_return 3 WATCHER_READ true])
                ++ [stream_cb_call 100 7; watch_return 3 WATCHER_READ false])
               ++ [watcher_add_call 3 WATCHER_READ])).
  { exact (life_on_read 3 (mk_stream 3 NULL NULL 7 NULL NULL) _ 300 9
             reader_keeps_then_declines). }
  destruct (registered_event_has_callback (P := one_name) never_keep [] 3
              _ _ (3, WATCHER_READ) eq_refl Hlife) as (H & _).
  - left. reflexivity.
  - apply H. simpl. discriminate.
Defined.
